(** * MINIPULS 3 pump controller: program flattening, phase execution and
      the serial connect handshake

    A shallow embedding of the core of [main.py]:
    - the step dictionaries of [sequence_data] (Phase and Cycle),
    - [PumpControlUI._flatten_sequence_for_plot] and
      [PumpControlUI._calculate_total_duration],
    - [PumpControlUI._execute_phase] (the tick loop of one phase),
    - the validation done by [AddPhaseDialog.on_ok] and the unvalidated
      [_load_sequence],
    - [MinipulsController._connect].

    Python floats are idealised as exact rationals ([Q]); Python integers are
    [Z]; list positions are [nat].  The dictionary [cycle_counters] is a
    [gmap nat Z].  Messages passed to [self._log] are collected in a list.
    The two [threading.Event]s that [_execute_phase] polls and the serial
    port that [_connect] talks to are inputs: a list of what the events look
    like at each turn of the tick loop, and a record of what the port
    answers.  Wall-clock bookkeeping and the progress bars are left out. *)

From Stdlib Require Import ZArith QArith Qround Lia Lqa String Ascii List DecimalString.
From stdpp Require Import base option list gmap strings sorting.

Local Open Scope string_scope.
Local Open Scope list_scope.
Local Open Scope Z_scope.

(** ** Step dictionaries *)

(** A Phase dictionary.  The keys ["update_interval"] and ["enabled"] are
    read with [dict.get] and a default, so they may be absent. *)
Record phase := mkPhase {
  direction : string;
  mode : string;
  rpm : Q;
  duration : Q;
  duration_unit : string;
  update_interval : option Q;
  phase_enabled : option bool
}.

(** A Cycle dictionary. *)
Record cycle := mkCycle {
  start_phase : Z;
  end_phase : Z;
  repeats : Z;
  cycle_enabled : option bool
}.

(** [instr['type']] is either ['Phase'] or ['Cycle']. *)
Inductive instr :=
| Phase (p : phase)
| Cycle (c : cycle).

(** [instr.get("enabled", True)] *)
Definition get_enabled (i : instr) : bool :=
  match i with
  | Phase p => default true (phase_enabled p)
  | Cycle c => default true (cycle_enabled c)
  end.

(** [str(n)] for a Python integer. *)
Definition py_str (n : Z) : string := NilZero.string_of_int (Z.to_int n).

(** ** Outcomes of a call that may raise *)

Inductive exn :=
| RecursionError (msg : string)
| ValueError (msg : string)
| UnboundLocalError (name : string)
| ZeroDivisionError.

Inductive outcome (A : Type) :=
| Returned (a : A)
| Raised (e : exn).
Arguments Returned {A} a.
Arguments Raised {A} e.

(** A log record: the message and the level given to [self._log]. *)
Definition log_entry : Type := string * string.

(** ** The sequence flattener *)

Definition MAX_ITER : Z := 10000.

(** The local variables of [_flatten_sequence_for_plot], with the messages
    it has logged so far. *)
Record loop_state := mkLoop {
  flat_list : list phase;
  pc : nat;
  iterations : Z;
  cycle_counters : gmap nat Z;
  logged : list log_entry
}.

Definition initial_loop_state : loop_state :=
  mkLoop [] 0 0 ∅ [].

(** Which branch of the loop body one turn of the [while] loop took. *)
Inductive branch :=
| SkipEnabled      (* only_disabled and the step is enabled: continue *)
| SkipDisabled     (* not include_disabled and the step is disabled: continue *)
| AppendPhase      (* a Phase is appended *)
| CycleJump        (* the counter is positive and the target is in range *)
| CycleInvalid     (* the counter is positive, the target is out of range: break *)
| CycleDone        (* the counter is not positive: it is deleted *)
| CycleDisabled.   (* a disabled Cycle that was not skipped above *)

Definition invalid_start_msg (c : cycle) : log_entry :=
  ("Error: Invalid start phase #" +:+ py_str (start_phase c) +:+ " in cycle.", "ERROR").

Definition too_many_steps_msg : log_entry :=
  ("Error: Sequence has too many steps or an infinite loop.", "ERROR").

Section Flatten.
Variable sequence_data : list instr.
Variables include_disabled only_disabled : bool.

(** One turn of the loop body on [instr = sequence_data[pc]].  The two
    [continue] branches leave [iterations] alone; [break] leaves it alone
    too; every other branch ends with [iterations += 1]. *)
Definition loop_body (i : instr) (s : loop_state) : branch * loop_state :=
  let is_instr_enabled := get_enabled i in
  if only_disabled && is_instr_enabled then
    (SkipEnabled,
     mkLoop (flat_list s) (S (pc s)) (iterations s) (cycle_counters s) (logged s))
  else if negb include_disabled && negb is_instr_enabled then
    (SkipDisabled,
     mkLoop (flat_list s) (S (pc s)) (iterations s) (cycle_counters s) (logged s))
  else
    match i with
    | Phase p =>
        (AppendPhase,
         mkLoop (flat_list s ++ [p]) (S (pc s)) (iterations s + 1)
                (cycle_counters s) (logged s))
    | Cycle c =>
        if is_instr_enabled then
          (* if pc not in cycle_counters: cycle_counters[pc] = instr['repeats'] *)
          let counters :=
            match cycle_counters s !! pc s with
            | Some _ => cycle_counters s
            | None => <[pc s := repeats c]> (cycle_counters s)
            end in
          let n := default 0 (counters !! pc s) in
          if 0 <? n then
            let counters' := <[pc s := n - 1]> counters in
            let target_pc := start_phase c - 1 in
            if (0 <=? target_pc) && (target_pc <? Z.of_nat (length sequence_data)) then
              (CycleJump,
               mkLoop (flat_list s) (Z.to_nat target_pc) (iterations s + 1)
                      counters' (logged s))
            else
              (CycleInvalid,
               mkLoop (flat_list s) (pc s) (iterations s) counters'
                      (logged s ++ [invalid_start_msg c]))
          else
            (CycleDone,
             mkLoop (flat_list s) (S (pc s)) (iterations s + 1)
                    (delete (pc s) counters) (logged s))
        else
          (CycleDisabled,
           mkLoop (flat_list s) (S (pc s)) (iterations s + 1)
                  (cycle_counters s) (logged s))
    end.

(** The [while pc < len(self.sequence_data) and iterations < MAX_ITER]
    loop.  Each turn is recorded as the position it ran at and the branch
    it took.  [None] means that [fuel] turns were not enough. *)
Fixpoint flatten_loop (fuel : nat) (s : loop_state)
  : option (list (nat * branch) * loop_state) :=
  match fuel with
  | O => None
  | S fuel' =>
      match sequence_data !! pc s with
      | Some i =>
          if iterations s <? MAX_ITER then
            let '(b, s') := loop_body i s in
            match b with
            | CycleInvalid => Some ([(pc s, b)], s')
            | _ =>
                '(tr, s'') ← flatten_loop fuel' s';
                Some ((pc s, b) :: tr, s'')
            end
          else Some ([], s)
      | None => Some ([], s)
      end
  end.

(** A number of turns that is always enough: between two counted turns
    there are at most [len] uncounted ones. *)
Definition flatten_fuel : nat :=
  S (Z.to_nat MAX_ITER * S (length sequence_data) + length sequence_data).

(** The loop as [_flatten_sequence_for_plot] runs it. *)
Definition flatten_run : option (list (nat * branch) * loop_state) :=
  flatten_loop flatten_fuel initial_loop_state.

(** [_flatten_sequence_for_plot]: the value returned or the exception
    raised, and the messages logged. *)
Definition _flatten_sequence_for_plot
  : option (outcome (list phase) * list log_entry) :=
  '(_, s) ← flatten_run;
  if MAX_ITER <=? iterations s then
    Some (Raised (RecursionError "Sequence flattening limit reached"),
          logged s ++ [too_many_steps_msg])
  else Some (Returned (flat_list s), logged s).

(** The turns the loop took. *)
Definition flatten_trace : list (nat * branch) :=
  match flatten_run with
  | Some (tr, _) => tr
  | None => []
  end.

(** The walk of the program counter without the ceiling: the turns of
    [while pc < len(self.sequence_data)] that do not [break], each with
    the same loop body. *)
Inductive walk : loop_state → list (nat * branch) → loop_state → Prop :=
| walk_nil s : walk s [] s
| walk_cons s i b s' tr s'' :
    sequence_data !! pc s = Some i →
    loop_body i s = (b, s') →
    b ≠ CycleInvalid →
    walk s' tr s'' →
    walk s ((pc s, b) :: tr) s''.

(** The steps that [flat_list] receives from a stretch of the program
    that holds no enabled Cycle: the Phases that are not skipped. *)
Definition visible_phases (l : list instr) : list phase :=
  omap (λ i, match i with
             | Phase p =>
                 if negb include_disabled && negb (get_enabled i) then None
                 else Some p
             | Cycle _ => None
             end) l.
End Flatten.

(** The branches that end with [iterations += 1]. *)
Definition counted (b : branch) : bool :=
  match b with
  | SkipEnabled | SkipDisabled | CycleInvalid => false
  | _ => true
  end.

Global Instance branch_eq_dec : EqDecision branch.
Proof. solve_decision. Defined.


Definition is_enabled_cycle (i : instr) : bool :=
  match i with
  | Cycle c => get_enabled i
  | Phase _ => false
  end.

(** ** Total planned duration *)

(** [{'s': 1, 'min': 60, 'hr': 3600}.get(unit, 1)] *)
Definition unit_factor (u : string) : Q :=
  if String.eqb u "s" then 1%Q
  else if String.eqb u "min" then 60%Q
  else if String.eqb u "hr" then 3600%Q
  else 1%Q.

(** [s['duration'] * ({...}.get(s['unit'], 1))] *)
Definition duration_s (p : phase) : Q :=
  (duration p * unit_factor (duration_unit p))%Q.

(** Python's [sum]: left to right, starting from 0. *)
Definition py_sum (l : list Q) : Q := fold_left Qplus l 0%Q.

(** [_calculate_total_duration]: the [try] around the sum catches
    [RecursionError] only. *)
Definition _calculate_total_duration (sequence_data : list instr)
    (include_disabled : bool) : option (outcome Q) :=
  '(o, _) ← _flatten_sequence_for_plot sequence_data include_disabled false;
  match o with
  | Returned flat => Some (Returned (py_sum (map duration_s flat)))
  | Raised (RecursionError _) => Some (Returned 0%Q)
  | Raised e => Some (Raised e)
  end.

(** The duration of a segment in seconds, in the words of the
    specification: minutes times 60, hours times 3600. *)
Definition spec_seconds (p : phase) : Q :=
  if String.eqb (duration_unit p) "min" then (duration p * 60)%Q
  else if String.eqb (duration_unit p) "hr" then (duration p * 3600)%Q
  else duration p.

(** The sum of the segments' durations in seconds. *)
Fixpoint spec_total_seconds (l : list phase) : Q :=
  match l with
  | [] => 0%Q
  | p :: l' => (spec_seconds p + spec_total_seconds l')%Q
  end.

(** ** Speed commands *)

(** [int(x)] on a float: truncation toward zero. *)
Definition py_int (x : Q) : Z := Z.quot (Qnum x) (Z.pos (Qden x)).

Fixpoint zeros (n : nat) : string :=
  match n with
  | O => ""
  | S n' => String "0" (zeros n')
  end.

(** Left padding with zeros up to [width] characters. *)
Definition zero_pad (width : nat) (digits : string) : string :=
  zeros (width - String.length digits) +:+ digits.

(** The format specification [:03] applied to an integer: at least three
    characters, zeros inserted after the sign. *)
Definition format_03 (n : Z) : string :=
  if n <? 0 then "-" +:+ zero_pad 2 (py_str (- n)) else zero_pad 3 (py_str n).

(** [f"R{int(rpm * 100):03}"] *)
Definition speed_command (r : Q) : string :=
  "R" +:+ format_03 (py_int (r * 100)).



(** ** Executing one phase *)

Definition PROGRESS_INTERVAL : Q := 1 # 10.

(** The value of [elapsed] after [n] running ticks. *)
Definition elapsed_after (n : nat) : Q :=
  (inject_Z (Z.of_nat n) * PROGRESS_INTERVAL)%Q.

Definition Qltb (a b : Q) : bool := negb (Qle_bool b a).

(** What the two events look like during one turn of the tick loop. *)
Inductive env_event :=
| EvRun        (* neither event is set *)
| EvPaused     (* pause_event is set after the wait: continue *)
| EvStopHead   (* stop_event is set when the loop condition is evaluated *)
| EvStopYield. (* the tick runs; the consumer sees stop_event at the yield
                  and leaves the generator *)

(** One running tick: the sample yielded and the speed command sent in that
    tick, if any. *)
Record tick_record := mkTick {
  t_elapsed : Q;
  t_rpm : Q;
  t_direction : string;
  t_command : option string
}.

Inductive phase_status :=
| PhaseDone
| PhaseStopped
| PhaseRunning
| PhaseCrashed (e : exn).

Record phase_run := mkRun {
  sent : list string;
  ticks : list tick_record;
  status : phase_status
}.

Section ExecutePhase.
Variable p : phase.
Variable start_rpm : Q.

(** The body of the tick loop after [elapsed += PROGRESS_INTERVAL]: the
    commanded RPM and the command sent.  A mode other than Fixed or Ramp
    leaves [current_rpm_in_phase] unbound. *)
Definition tick_body (elapsed : Q) : outcome (Q * option string) :=
  if String.eqb (mode p) "Fixed" then
    Returned (rpm p, None)
  else if String.eqb (mode p) "Ramp" then
    let ui := default 1%Q (update_interval p) in
    let progress_in_phase :=
      if Qltb 0 (duration_s p) then (elapsed / duration_s p)%Q else 1%Q in
    let current_rpm_in_phase :=
      (start_rpm + (rpm p - start_rpm) * progress_in_phase)%Q in
    if Qeq_bool ui 0 then Raised ZeroDivisionError
    else if py_int ((elapsed - PROGRESS_INTERVAL) / ui) <? py_int (elapsed / ui) then
      Returned (current_rpm_in_phase, Some (speed_command current_rpm_in_phase))
    else Returned (current_rpm_in_phase, None)
  else Raised (UnboundLocalError "current_rpm_in_phase").

(** The [while elapsed < duration_s and not self.stop_event.is_set()] loop
    and the command that follows it.  [PhaseRunning] means that the events
    listed in [env] ended before the phase did. *)
Fixpoint phase_loop (env : list env_event) (elapsed : Q) : phase_run :=
  if Qltb elapsed (duration_s p) then
    match env with
    | [] => mkRun [] [] PhaseRunning
    | EvStopHead :: _ => mkRun [] [] PhaseStopped
    | EvPaused :: env' => phase_loop env' elapsed
    | ev :: env' =>
        let elapsed' := (elapsed + PROGRESS_INTERVAL)%Q in
        match tick_body elapsed' with
        | Raised e => mkRun [] [] (PhaseCrashed e)
        | Returned (cur, cmd) =>
            let rest :=
              match ev with
              | EvStopYield => mkRun [] [] PhaseStopped
              | _ => phase_loop env' elapsed'
              end in
            mkRun (option_list cmd ++ sent rest)
                  (mkTick elapsed' cur (direction p) cmd :: ticks rest)
                  (status rest)
        end
    end
  else
    match env with
    | EvStopHead :: _ => mkRun [] [] PhaseStopped
    | _ => mkRun [speed_command (rpm p)] [] PhaseDone
    end.

(** [_execute_phase]: the commands handed to [_send_pump_command], in
    order, and the running ticks. *)
Definition _execute_phase (env : list env_event) : phase_run :=
  let r := phase_loop env 0%Q in
  mkRun ((if String.eqb (direction p) "Forward" then "K>" else "K<")
           :: (if String.eqb (mode p) "Fixed" then [speed_command (rpm p)] else [])
           ++ sent r)
        (ticks r) (status r).
End ExecutePhase.

(** ** Validation in the dialog, and loading a file *)

(** [AddPhaseDialog.on_ok].  The entries are given as the result of
    [float(...)], [None] when the text is not a number.  [Raised] is the
    exception caught by the [except] clause, after which no result is set. *)
Definition AddPhaseDialog_on_ok (target_rpm duration_entry : option Q)
    (direction_cb speed_mode_cb unit_cb : string)
    (update_interval_entry : option Q) (initial_enabled : option bool)
  : outcome phase :=
  match target_rpm, duration_entry with
  | Some r, Some d =>
      if negb (Qle_bool 0 r && Qle_bool r 48 && Qle_bool 0 d) then
        Raised (ValueError "Invalid RPM or duration value")
      else if String.eqb speed_mode_cb "Ramp" then
        match update_interval_entry with
        | Some ui =>
            if Qle_bool ui 0 then Raised (ValueError "Update interval must be positive")
            else Returned (mkPhase direction_cb speed_mode_cb r d unit_cb (Some ui)
                                   (Some (default true initial_enabled)))
        | None => Raised (ValueError "could not convert string to float")
        end
      else Returned (mkPhase direction_cb speed_mode_cb r d unit_cb None
                             (Some (default true initial_enabled)))
  | _, _ => Raised (ValueError "could not convert string to float")
  end.

(** [_add_phase]: the step is appended only when the dialog has a result. *)
Definition _add_phase (sequence_data : list instr) (result : outcome phase)
  : list instr :=
  match result with
  | Returned ph => sequence_data ++ [Phase ph]
  | Raised _ => sequence_data
  end.

(** [_load_sequence]: [self.sequence_data = json.load(f)], given the steps
    the file decodes to. *)
Definition _load_sequence (file_steps : list instr) : list instr := file_steps.

(** ** The connect handshake *)

(** What the serial port does during one [_connect]: whether opening it and
    the two writes succeed ([false] is a [serial.SerialException]), and what
    [read(1)] gives: [None] is a [serial.SerialException], [Some None] the
    empty bytes of a timeout, [Some (Some b)] one byte. *)
Record serial_env := mkEnv {
  env_open : bool;
  env_write_reset : bool;
  env_write_connect : bool;
  env_read : option (option Z)
}.

Record connect_config := mkConfig {
  cfg_port : string;
  cfg_baudrate : Z;
  cfg_unit_id : Z
}.

(** The opened port: whether it is open and the bytes written to it. *)
Record port := mkPort {
  is_open : bool;
  written : list Z
}.

(** A result message: status and text. *)
Definition result_msg : Type := string * string.

(** The controller after [_connect]: [self.ser], the messages put on the
    result queue, the port object that was opened (if any) in its last
    state, and the exception that left [_connect], if one did. *)
Record connect_result := mkConnect {
  ser : option port;
  results : list result_msg;
  opened : option port;
  escaped : option exn
}.

Definition hex_digit (n : Z) : string :=
  String (match n with
          | 0 => "0" | 1 => "1" | 2 => "2" | 3 => "3" | 4 => "4" | 5 => "5"
          | 6 => "6" | 7 => "7" | 8 => "8" | 9 => "9" | 10 => "a" | 11 => "b"
          | 12 => "c" | 13 => "d" | 14 => "e" | _ => "f"
          end%char) "".

(** [bytes.hex()] *)
Fixpoint bytes_hex (bs : list Z) : string :=
  match bs with
  | [] => ""
  | b :: bs' => hex_digit (b / 16) +:+ hex_digit (b mod 16) +:+ bytes_hex bs'
  end.

(** [f"Connection Error: {e}"], without the text of the exception. *)
Definition connection_error_msg : string := "Connection Error: ".

(** [MinipulsController._connect] *)
Definition _connect (config : connect_config) (env : serial_env) : connect_result :=
  if negb (env_open env) then
    mkConnect None [("error", connection_error_msg)] None None
  else if negb (env_write_reset env) then
    mkConnect None [("error", connection_error_msg)] (Some (mkPort true [])) None
  else
    let b := cfg_unit_id config + 128 in
    if negb ((0 <=? b) && (b <? 256)) then
      (* bytes([...]) raises ValueError, which no clause catches *)
      mkConnect (Some (mkPort true [255])) [] (Some (mkPort true [255]))
                (Some (ValueError "bytes must be in range(0, 256)"))
    else
      let connect_command := [b] in
      if negb (env_write_connect env) then
        mkConnect None [("error", connection_error_msg)] (Some (mkPort true [255])) None
      else
        match env_read env with
        | None =>
            mkConnect None [("error", connection_error_msg)]
                      (Some (mkPort true [255; b])) None
        | Some r =>
            let response := option_list r in
            if bool_decide (response = connect_command) then
              mkConnect (Some (mkPort true [255; b]))
                        [("connected",
                          "Successfully connected to pump (ID: "
                            +:+ py_str (cfg_unit_id config) +:+ ").")]
                        (Some (mkPort true [255; b])) None
            else
              mkConnect None
                        [("error",
                          "Connection failed. Expected " +:+ bytes_hex connect_command
                            +:+ " but received " +:+ bytes_hex response)]
                        (Some (mkPort false [255; b])) None
        end.

(** ** The flattener in its other modes *)

(** The disabled Phases of a stretch of the program, in order. *)
Definition disabled_phases (l : list instr) : list phase :=
  omap (λ i, match i with
             | Phase p => if get_enabled i then None else Some p
             | Cycle _ => None
             end) l.

(** The number of disabled steps of a stretch of the program. *)
Definition count_disabled (l : list instr) : nat :=
  length (filter (λ i, get_enabled i = false) l).

(** ** Progress bars and the shear-stress estimate *)

(** [_update_progress_bars]: the value given to the step progress bar. *)
Definition step_progress (elapsed_step duration_step : Q) : Q :=
  if Qltb 0 duration_step then (elapsed_step / duration_step * 100)%Q else 100%Q.

(** [_update_progress_bars]: the value given to the total progress bar. *)
Definition total_progress (time_before elapsed_step duration_total : Q) : Q :=
  if Qltb 0 duration_total
  then ((time_before + elapsed_step) / duration_total * 100)%Q else 100%Q.

(** The loop of [_update_total_duration] that adds up [rpm * duration_s]. *)
Definition total_weighted_rpm (flat_sequence : list phase) : Q :=
  fold_left (λ acc step, (acc + rpm step * duration_s step)%Q) flat_sequence 0%Q.

(** [_update_total_duration], given the three settings as numbers: the
    total duration shown and the shear stress shown, [None] standing for the
    text N/A that the [except] clause sets. *)
Definition _update_total_duration (sequence_data : list instr)
    (eta p_const k_coeff : Q) : option (outcome (Q * option Q)) :=
  t ← _calculate_total_duration sequence_data false;
  match t with
  | Raised e => Some (Raised e)
  | Returned total_s =>
      '(o, _) ← _flatten_sequence_for_plot sequence_data false false;
      match o with
      | Returned flat_sequence =>
          let avg_rpm :=
            if Qltb 0 total_s
            then (total_weighted_rpm flat_sequence / total_s)%Q else 0%Q in
          Some (Returned (total_s, Some (eta * p_const * (k_coeff * avg_rpm))%Q))
      | Raised _ => Some (Returned (total_s, None))
      end
  end.

Global Instance env_event_eq_dec : EqDecision env_event.
Proof. solve_decision. Defined.

(** ** The Cycle dialog and the editing operations *)






(** [list.insert(i, x)] for [i >= 0]; an index past the end appends. *)
Definition py_insert {A : Type} (i : nat) (x : A) (l : list A) : list A :=
  take i l ++ x :: drop i l.

(** The loop shared by [_paste_item] and [_insert_template]:
    [for item in reversed(items): self.sequence_data.insert(index + 1, item)],
    where [index] is the first selected row or, without a selection,
    [len(self.sequence_data) - 1]. *)
Definition insert_after_selection (items : list instr) (sel : option nat)
    (sequence_data : list instr) : list instr :=
  let index : Z :=
    match sel with
    | Some i => Z.of_nat i
    | None => Z.of_nat (length sequence_data) - 1
    end in
  fold_left (λ l item, py_insert (Z.to_nat (index + 1)) item l)
            (rev items) sequence_data.

(** [_paste_item]: nothing happens with an empty clipboard. *)
Definition _paste_item (clipboard : list instr) (sel : option nat)
    (sequence_data : list instr) : list instr :=
  match clipboard with
  | [] => sequence_data
  | _ => insert_after_selection clipboard sel sequence_data
  end.

(** [_insert_template]: nothing happens with a missing or empty template. *)
Definition _insert_template (template_data : option (list instr)) (sel : option nat)
    (sequence_data : list instr) : list instr :=
  match template_data with
  | None | Some [] => sequence_data
  | Some items => insert_after_selection items sel sequence_data
  end.

(** [step["enabled"] = b] *)
Definition set_enabled (b : bool) (i : instr) : instr :=
  match i with
  | Phase p =>
      Phase (mkPhase (direction p) (mode p) (rpm p) (duration p) (duration_unit p)
                     (update_interval p) (Some b))
  | Cycle c => Cycle (mkCycle (start_phase c) (end_phase c) (repeats c) (Some b))
  end.

(** [for i in indices: self.sequence_data[i]["enabled"] = new_state];
    [None] is the [IndexError] of an index past the end. *)
Fixpoint set_enabled_at (indices : list nat) (b : bool) (l : list instr)
  : option (list instr) :=
  match indices with
  | [] => Some l
  | i :: rest =>
      x ← l !! i;
      set_enabled_at rest b (<[i := set_enabled b x]> l)
  end.

(** [_toggle_item_enabled] on the selected rows. *)
Definition _toggle_item_enabled (indices : list nat) (sequence_data : list instr)
  : option (list instr) :=
  match indices with
  | [] => Some sequence_data
  | i0 :: _ =>
      first ← sequence_data !! i0;
      set_enabled_at indices (negb (get_enabled first)) sequence_data
  end.

(** [l.insert(j, l.pop(i))]; [None] is the [IndexError] of [pop]. *)
Definition pop_insert {A : Type} (i j : nat) (l : list A) : option (list A) :=
  x ← l !! i;
  Some (py_insert j x (delete i l)).

Fixpoint pop_insert_all {A : Type} (shift : nat → nat) (indices : list nat)
    (l : list A) : option (list A) :=
  match indices with
  | [] => Some l
  | i :: rest =>
      l' ← pop_insert i (shift i) l;
      pop_insert_all shift rest l'
  end.

(** [_move_selected_item]: [direction] is -1 for up, anything else for
    down. *)
Definition _move_selected_item (direction : Z) (sel : list nat)
    (sequence_data : list instr) : option (list instr) :=
  match sel with
  | [] => Some sequence_data
  | _ =>
      if direction =? -1 then
        let indices := merge_sort le sel in
        match indices with
        | O :: _ => Some sequence_data
        | _ => pop_insert_all (λ i, (i - 1)%nat) indices sequence_data
        end
      else
        let indices := merge_sort (flip le) sel in
        match indices with
        | i0 :: _ =>
            if Z.of_nat (length sequence_data) - 1 <=? Z.of_nat i0
            then Some sequence_data
            else pop_insert_all (λ i, (i + 1)%nat) indices sequence_data
        | [] => Some sequence_data
        end
  end.

(** [del l[i]]; [None] is the [IndexError]. *)
Definition py_del {A : Type} (i : nat) (l : list A) : option (list A) :=
  _ ← l !! i;
  Some (delete i l).

Fixpoint py_del_all {A : Type} (indices : list nat) (l : list A)
  : option (list A) :=
  match indices with
  | [] => Some l
  | i :: rest => l' ← py_del i l; py_del_all rest l'
  end.

(** [_remove_item], once the removal is confirmed: the selected rows are
    deleted from the last one to the first. *)
Definition _remove_item (sel : list nat) (sequence_data : list instr)
  : option (list instr) :=
  py_del_all (merge_sort (flip le) sel) sequence_data.

(** The steps at the positions, counted from [k], that are not selected. *)
Fixpoint unselected_from {A : Type} (k : nat) (sel : list nat) (l : list A)
  : list A :=
  match l with
  | [] => []
  | x :: l' =>
      if bool_decide (k ∈ sel) then unselected_from (S k) sel l'
      else x :: unselected_from (S k) sel l'
  end.

(** [list.remove(x)] for an [x] that is in the list: the first occurrence
    goes. *)
Fixpoint py_remove (x : string) (l : list string) : list string :=
  match l with
  | [] => []
  | y :: l' => if decide (x = y) then l' else y :: py_remove x l'
  end.

(** [_add_to_recent_files], on the list kept under ['recent_files']. *)
Definition _add_to_recent_files (filepath : string) (recent_files : list string)
  : list string :=
  let l := if bool_decide (filepath ∈ recent_files)
           then py_remove filepath recent_files else recent_files in
  take 10 (py_insert 0 filepath l).

(** ** The worker loop of the controller *)

(** [command_str.encode('ascii')]; [None] is the [UnicodeEncodeError] of a
    character past 127. *)
Definition encode_ascii (s : string) : option (list Z) :=
  mapM (λ c, let n := Z.of_N (N_of_ascii c) in
             if n <? 128 then Some n else None)
       (list_ascii_of_string s).

(** The controller: [self.ser], the messages put on the result queue so
    far, and every byte written to a port so far. *)
Record controller := mkController {
  ctl_ser : option port;
  ctl_results : list result_msg;
  ctl_wire : list Z
}.

(** What the port does during [_disconnect]: the write of the reset byte or
    the [close] may raise. *)
Inductive disconnect_io :=
| DiscOk
| DiscWriteFails
| DiscCloseFails.

(** A command taken from the queue, with what the port does while it is
    processed. *)
Inductive command :=
| CmdConnect (config : connect_config) (env : serial_env)
| CmdDisconnect (io : disconnect_io)
| CmdSend (command_str : string) (write_ok : bool)
| CmdStopThread (io : disconnect_io)
| CmdOther.

(** An exception that no clause of the worker catches. *)
Inductive worker_fault :=
| FaultRaised (e : exn)
| FaultUnicodeEncode
| FaultSerialWrite.

(** How [run] ends: [stop_thread] was taken from the queue, the commands
    listed ran out while the loop goes on polling, or an exception left the
    thread. *)
Inductive worker_end :=
| WorkerStopped
| WorkerPolling
| WorkerDied (f : worker_fault).

(** The message of the [except] clause of [_disconnect], up to the text of
    the exception that the source appends. *)
Definition disconnect_error_msg : string := "Error during disconnect: ".

(** [MinipulsController._disconnect] *)
Definition _disconnect (io : disconnect_io) (c : controller) : controller :=
  match ctl_ser c with
  | Some p =>
      if is_open p then
        match io with
        | DiscOk =>
            mkController None
              (ctl_results c ++ [("disconnected", "Serial port closed.")])
              (ctl_wire c ++ [255])
        | DiscWriteFails =>
            mkController None (ctl_results c ++ [("error", disconnect_error_msg)])
                         (ctl_wire c)
        | DiscCloseFails =>
            mkController None (ctl_results c ++ [("error", disconnect_error_msg)])
                         (ctl_wire c ++ [255])
        end
      else mkController None (ctl_results c) (ctl_wire c)
  | None => mkController None (ctl_results c) (ctl_wire c)
  end.

Definition not_connected_msg : result_msg :=
  ("error", "Cannot send command: Pump not connected.").

(** [b'\n' + payload + b'\r'] *)
Definition frame (payload : list Z) : list Z := 10 :: payload ++ [13].

(** [MinipulsController._send_command] *)
Definition _send_command (command_str : string) (write_ok : bool) (c : controller)
  : controller * option worker_fault :=
  match ctl_ser c with
  | Some p =>
      if is_open p then
        match encode_ascii command_str with
        | None => (c, Some FaultUnicodeEncode)
        | Some payload =>
            if write_ok then
              (mkController (Some (mkPort true (written p ++ frame payload)))
                            (ctl_results c) (ctl_wire c ++ frame payload),
               None)
            else (c, Some FaultSerialWrite)
        end
      else (mkController (ctl_ser c) (ctl_results c ++ [not_connected_msg])
                         (ctl_wire c), None)
  | None =>
      (mkController None (ctl_results c ++ [not_connected_msg]) (ctl_wire c), None)
  end.

(** [MinipulsController.run] on the commands that arrive, in order. *)
Fixpoint run (commands : list command) (c : controller)
  : controller * worker_end :=
  match commands with
  | [] => (c, WorkerPolling)
  | CmdConnect config env :: rest =>
      let r := _connect config env in
      let c' := mkController (ser r) (ctl_results c ++ results r)
                             (ctl_wire c ++ from_option written [] (opened r)) in
      match escaped r with
      | Some e => (c', WorkerDied (FaultRaised e))
      | None => run rest c'
      end
  | CmdDisconnect io :: rest => run rest (_disconnect io c)
  | CmdSend command_str write_ok :: rest =>
      match _send_command command_str write_ok c with
      | (c', Some f) => (c', WorkerDied f)
      | (c', None) => run rest c'
      end
  | CmdStopThread io :: _ => (_disconnect io c, WorkerStopped)
  | CmdOther :: rest => run rest c
  end.

Definition is_send (cmd : command) : bool :=
  match cmd with
  | CmdSend _ _ => true
  | _ => false
  end.

Definition is_connect (cmd : command) : bool :=
  match cmd with
  | CmdConnect _ _ => true
  | _ => false
  end.

(** ** The sequence engine *)

(** [l[i]] for a Python integer [i]: a negative index counts from the end;
    [None] is an [IndexError]. *)
Definition py_index {A} (l : list A) (i : Z) : option A :=
  if 0 <=? i then l !! Z.to_nat i
  else if 0 <=? i + Z.of_nat (length l) then l !! Z.to_nat (i + Z.of_nat (length l))
  else None.

(** The local variables of [_sequence_worker] and [self.current_rpm], with
    the commands handed to [_send_pump_command] so far and the Phases
    handed to [_execute_phase] so far, in order. *)
Record engine_state := mkEngine {
  e_pc : Z;
  e_counters : gmap Z Z;
  current_rpm : Q;
  cumulative_time : Q;
  e_sent : list string;
  executed : list phase
}.

(** How [_sequence_worker] ends: by its last lines, after a stop, or with
    an exception that leaves the thread. *)
Inductive engine_end :=
| SeqFinished
| SeqStopped
| SeqIndexError
| SeqCrashed (e : exn).

Definition initial_engine_state : engine_state :=
  mkEngine 0 ∅ 0%Q 0%Q [] [].

Section SequenceWorker.
Variable sequence_data : list instr.

(** [while pc < len(self.sequence_data) and not
    self.sequence_data[pc].get("enabled", True): pc += 1], where [n] is the
    number of positions from [pc] up to the end of the list, so that the
    condition [pc < len] is false when [n] is used up.  [inr pc] is the
    position at which the loop is left, [inl pc] the position at which
    [self.sequence_data[pc]] raises an [IndexError]. *)
Fixpoint skip_disabled (n : nat) (pc : Z) : Z + Z :=
  match n with
  | O => inr pc
  | S n' =>
      if pc <? Z.of_nat (length sequence_data) then
        match py_index sequence_data pc with
        | Some i => if get_enabled i then inr pc else skip_disabled n' (pc + 1)
        | None => inl pc
        end
      else inr pc
  end.

(** The outer [while] loop of [_sequence_worker] in a run during which
    neither [stop_event] nor [pause_event] is set: every turn of a tick
    loop is an [EvRun], of which [_execute_phase] is given [ticks_fuel].
    [None] means that [fuel] turns of the outer loop, or [ticks_fuel] turns
    of a tick loop, were not enough. *)
Fixpoint worker_loop (ticks_fuel fuel : nat) (s : engine_state)
  : option (engine_state * engine_end) :=
  match fuel with
  | O => None
  | S fuel' =>
      if e_pc s <? Z.of_nat (length sequence_data) then
        match skip_disabled (Z.to_nat (Z.of_nat (length sequence_data) - e_pc s))
                            (e_pc s) with
        | inl pc =>
            Some (mkEngine pc (e_counters s) (current_rpm s)
                           (cumulative_time s) (e_sent s) (executed s),
                  SeqIndexError)
        | inr pc =>
            let s0 := mkEngine pc (e_counters s) (current_rpm s)
                               (cumulative_time s) (e_sent s) (executed s) in
            if Z.of_nat (length sequence_data) <=? pc then Some (s0, SeqFinished)
            else
              match py_index sequence_data pc with
              | None => Some (s0, SeqIndexError)
              | Some (Phase p) =>
                  let phase_start_time := cumulative_time s in
                  let r := _execute_phase p (current_rpm s)
                                          (replicate ticks_fuel EvRun) in
                  let s1 :=
                    mkEngine pc (e_counters s)
                             (default (current_rpm s) (t_rpm <$> last (ticks r)))
                             (default (cumulative_time s)
                                ((λ t, phase_start_time + t_elapsed t)%Q
                                   <$> last (ticks r)))
                             (e_sent s ++ sent r) (executed s ++ [p]) in
                  match status r with
                  | PhaseDone =>
                      worker_loop ticks_fuel fuel'
                        (mkEngine (pc + 1) (e_counters s1) (current_rpm s1)
                                  (phase_start_time + duration_s p)%Q
                                  (e_sent s1) (executed s1))
                  | PhaseStopped => Some (s1, SeqStopped)
                  | PhaseCrashed e => Some (s1, SeqCrashed e)
                  | PhaseRunning => None
                  end
              | Some (Cycle c) =>
                  let counters :=
                    match e_counters s !! pc with
                    | Some _ => e_counters s
                    | None => <[pc := repeats c]> (e_counters s)
                    end in
                  let n := default 0 (counters !! pc) in
                  if 0 <? n then
                    worker_loop ticks_fuel fuel'
                      (mkEngine (start_phase c - 1) (<[pc := n - 1]> counters)
                                (current_rpm s) (cumulative_time s)
                                (e_sent s) (executed s))
                  else
                    worker_loop ticks_fuel fuel'
                      (mkEngine (pc + 1) (delete pc counters)
                                (current_rpm s) (cumulative_time s)
                                (e_sent s) (executed s))
              end
        end
      else Some (s, SeqFinished)
  end.

(** [_sequence_worker]: after the loop, [KH] is sent unless [stop_event]
    is set. *)
Definition _sequence_worker (fuel : nat) : option (engine_state * engine_end) :=
  '(s, e) ← worker_loop fuel fuel initial_engine_state;
  match e with
  | SeqFinished =>
      Some (mkEngine (e_pc s) (e_counters s) (current_rpm s) (cumulative_time s)
                     (e_sent s ++ ["KH"]) (executed s),
            SeqFinished)
  | _ => Some (s, e)
  end.
End SequenceWorker.

(** The engine stands where the flattening walk stands: the same position,
    the same counters, and it has executed the Phases collected so far. *)
Definition engine_matches (e : engine_state) (s : loop_state) : Prop :=
  e_pc e = Z.of_nat (pc s) ∧
  e_counters e = kmap Z.of_nat (cycle_counters s) ∧
  executed e = flat_list s ∧
  cumulative_time e = py_sum (map duration_s (flat_list s)).

(** * Properties *)

(** ** The loop body *)

Section FlattenFacts.
Variable sequence_data : list instr.
Variables include_disabled only_disabled : bool.

Local Abbreviation body := (loop_body sequence_data include_disabled only_disabled).
Local Abbreviation floop := (flatten_loop sequence_data include_disabled only_disabled).
Local Abbreviation steps := (walk sequence_data include_disabled only_disabled).

Lemma loop_body_iterations i s b s' :
  body i s = (b, s') →
  iterations s' = iterations s + (if counted b then 1 else 0).
Proof.
  unfold loop_body. intros H.
  repeat case_match; simplify_eq; simpl; lia.
Qed.

Lemma loop_body_pc i s b s' :
  body i s = (b, s') →
  (pc s < length sequence_data)%nat →
  (pc s' ≤ length sequence_data)%nat.
Proof.
  unfold loop_body. intros H Hlt.
  repeat case_match; simplify_eq; simpl; try lia.
  all: match goal with
       | H : _ && _ = true |- _ => apply andb_true_iff in H as [? ?]
       end; lia.
Qed.

Lemma loop_body_skip_pc i s b s' :
  body i s = (b, s') →
  counted b = false → b ≠ CycleInvalid →
  pc s' = S (pc s).
Proof.
  unfold loop_body. intros H Hc Hb.
  repeat case_match; simplify_eq; simpl in *; congruence.
Qed.

(** ** Fuel *)

Lemma flatten_loop_more fuel k s r :
  floop fuel s = Some r → floop (fuel + k) s = Some r.
Proof.
  revert s r. induction fuel as [|fuel IH]; intros s r H; [discriminate|].
  simpl in *.
  destruct (sequence_data !! pc s) as [i|]; [|done].
  destruct (iterations s <? MAX_ITER); [|done].
  destruct (body i s) as [b s'].
  destruct (floop fuel s') as [[tr s'']|] eqn:E.
  - rewrite (IH _ _ E). done.
  - destruct b; simpl in *; done.
Qed.

Lemma flatten_loop_enough fuel s :
  (pc s ≤ length sequence_data)%nat →
  (Z.to_nat (MAX_ITER - iterations s) * S (length sequence_data)
     + (length sequence_data - pc s) < fuel)%nat →
  is_Some (floop fuel s).
Proof.
  revert s. induction fuel as [|fuel IH]; intros s Hpc Hm;
    [by apply Nat.nlt_0_r in Hm|].
  simpl.
  destruct (sequence_data !! pc s) as [i|] eqn:Hi; [|eauto].
  destruct (iterations s <? MAX_ITER) eqn:Hit; [|eauto].
  apply Z.ltb_lt in Hit.
  apply lookup_lt_Some in Hi.
  destruct (body i s) as [b s'] eqn:Hb.
  pose proof (loop_body_iterations _ _ _ _ Hb) as Hits.
  pose proof (loop_body_pc _ _ _ _ Hb Hi) as Hpc'.
  assert (b = CycleInvalid ∨ is_Some (floop fuel s')) as [->|[[tr s''] E]]; [|eauto|].
  - destruct (decide (b = CycleInvalid)) as [|Hne]; [by left|right].
    apply IH; [done|].
    destruct (counted b) eqn:Hc.
    + replace (Z.to_nat (MAX_ITER - iterations s))
        with (S (Z.to_nat (MAX_ITER - iterations s'))) in Hm by lia.
      simpl in Hm. lia.
    + rewrite (loop_body_skip_pc _ _ _ _ Hb Hc Hne).
      replace (iterations s') with (iterations s) by lia. lia.
  - rewrite E. destruct b; simpl; eauto.
Qed.

Lemma flatten_run_total :
  is_Some (flatten_run sequence_data include_disabled only_disabled).
Proof.
  apply flatten_loop_enough; cbn [initial_loop_state pc iterations]; [lia|].
  unfold flatten_fuel. rewrite Z.sub_0_r, Nat.sub_0_r. apply Nat.lt_succ_diag_r.
Qed.

Lemma flatten_loop_unique fuel fuel' s r r' :
  floop fuel s = Some r → floop fuel' s = Some r' → r = r'.
Proof.
  intros H H'.
  apply (flatten_loop_more _ fuel') in H.
  apply (flatten_loop_more _ fuel) in H'.
  rewrite Nat.add_comm in H'. congruence.
Qed.

(** ** The walk and the loop *)

Lemma walk_iterations s tr s' :
  steps s tr s' → iterations s ≤ iterations s'.
Proof.
  induction 1 as [|s i b s' tr s'' Hi Hb Hne _ IH]; [lia|].
  apply loop_body_iterations in Hb. destruct (counted b); lia.
Qed.

Lemma walk_pc s tr s' :
  steps s tr s' →
  (pc s ≤ length sequence_data)%nat → (pc s' ≤ length sequence_data)%nat.
Proof.
  induction 1 as [|s i b s' tr s'' Hi Hb Hne _ IH]; [done|].
  intros _. apply IH. eapply loop_body_pc; [done|].
  by eapply lookup_lt_Some.
Qed.



(** Below the ceiling the loop takes every turn of the walk. *)
Lemma walk_follow s tr s' fuel tr' s'' :
  steps s tr s' →
  iterations s' < MAX_ITER →
  floop fuel s' = Some (tr', s'') →
  floop (length tr + fuel) s = Some (tr ++ tr', s'').
Proof.
  induction 1 as [|s i b s1 tr s2 Hi Hb Hne Hw IH]; intros Hlt Hf; [done|].
  specialize (IH Hlt Hf).
  pose proof (walk_iterations _ _ _ Hw) as Hmono.
  pose proof (loop_body_iterations _ _ _ _ Hb) as Hits.
  simpl. rewrite Hi.
  replace (iterations s <? MAX_ITER) with true
    by (symmetry; apply Z.ltb_lt; destruct (counted b); lia).
  rewrite Hb, IH. destruct b; simpl; congruence.
Qed.

Lemma flatten_loop_halted fuel s :
  sequence_data !! pc s = None ∨ MAX_ITER ≤ iterations s →
  floop (S fuel) s = Some ([], s).
Proof.
  intros [H|H]; simpl.
  - by rewrite H.
  - destruct (sequence_data !! pc s); [|done].
    by replace (iterations s <? MAX_ITER) with false
      by (symmetry; apply Z.ltb_ge; lia).
Qed.

Lemma flatten_loop_break fuel s i s' :
  sequence_data !! pc s = Some i → iterations s < MAX_ITER →
  body i s = (CycleInvalid, s') →
  floop (S fuel) s = Some ([(pc s, CycleInvalid)], s').
Proof.
  intros Hi Hlt Hb. simpl. rewrite Hi.
  replace (iterations s <? MAX_ITER) with true by (symmetry; by apply Z.ltb_lt).
  by rewrite Hb.
Qed.

(** What the loop returns: either the walk ran until the program ended or
    the ceiling was reached, or it ran until a Cycle with an invalid
    target made the loop break. *)
Lemma flatten_loop_sound fuel s tr s' :
  floop fuel s = Some (tr, s') →
  iterations s ≤ MAX_ITER →
  iterations s' ≤ MAX_ITER ∧
  ((steps s tr s' ∧
    (sequence_data !! pc s' = None ∨ iterations s' = MAX_ITER)) ∨
   (∃ tr0 u i,
      tr = tr0 ++ [(pc u, CycleInvalid)] ∧ steps s tr0 u ∧
      sequence_data !! pc u = Some i ∧ iterations u < MAX_ITER ∧
      body i u = (CycleInvalid, s'))).
Proof.
  revert s tr s'. induction fuel as [|fuel IH]; intros s tr s' H Hle; [done|].
  simpl in H.
  destruct (sequence_data !! pc s) as [i|] eqn:Hi; cycle 1.
  { simplify_eq. split; [done|]. left. split; [constructor|by left]. }
  destruct (iterations s <? MAX_ITER) eqn:Hit; cycle 1.
  { apply Z.ltb_ge in Hit. simplify_eq. split; [done|].
    left. split; [constructor|right; lia]. }
  apply Z.ltb_lt in Hit.
  destruct (body i s) as [b s1] eqn:Hb.
  pose proof (loop_body_iterations _ _ _ _ Hb) as Hits.
  destruct (decide (b = CycleInvalid)) as [->|Hne].
  { simplify_eq. simpl in Hits. split; [lia|]. right.
    exists [], s, i. repeat split; try done. constructor. }
  assert (∃ tr1, floop fuel s1 = Some (tr1, s') ∧ tr = (pc s, b) :: tr1)
    as (tr1 & Hf & ->).
  { destruct (floop fuel s1) as [[tr1 s2]|]; destruct b; simplify_eq/=; eauto. }
  destruct (IH _ _ _ Hf) as [Hle' Hcase]; [destruct (counted b); lia|].
  split; [done|].
  destruct Hcase as [[Hw Hend]|(tr0 & u & j & -> & Hw & Hj & Hu & Hbu)].
  - left. split; [|done]. econstructor; eauto.
  - right. exists ((pc s, b) :: tr0), u, j.
    repeat split; try done. econstructor; eauto.
Qed.

(** A walk that gets to [MAX_ITER] counted turns makes the loop stop at
    the ceiling. *)
Lemma walk_hits_ceiling s tr s' fuel tr' sf :
  steps s tr s' →
  iterations s ≤ MAX_ITER →
  iterations s' = MAX_ITER →
  floop fuel s = Some (tr', sf) →
  iterations sf = MAX_ITER.
Proof.
  intros Hw. revert fuel tr'.
  induction Hw as [|s i b s1 tr s2 Hi Hb Hne Hw IH]; intros fuel tr' Hle Heq Hf.
  - destruct fuel; [done|].
    rewrite flatten_loop_halted in Hf by (right; lia). by simplify_eq.
  - destruct fuel as [|fuel]; [done|].
    destruct (decide (iterations s = MAX_ITER)) as [Hs|Hs].
    { rewrite flatten_loop_halted in Hf by (right; lia). by simplify_eq. }
    pose proof (loop_body_iterations _ _ _ _ Hb) as Hits.
    simpl in Hf. rewrite Hi in Hf.
    replace (iterations s <? MAX_ITER) with true in Hf
      by (symmetry; apply Z.ltb_lt; lia).
    rewrite Hb in Hf.
    destruct (floop fuel s1) as [[tr1 s3]|] eqn:E;
      [|destruct b; simplify_eq/=].
    assert (s3 = sf) as -> by (destruct b; simplify_eq/=; done).
    eapply IH; [destruct (counted b); lia|done|done].
Qed.

(** The loop as [_flatten_sequence_for_plot] runs it goes through every
    state that the walk reaches below the ceiling. *)
Lemma flatten_run_through tr s fuel tr' s' :
  steps initial_loop_state tr s →
  iterations s < MAX_ITER →
  floop fuel s = Some (tr', s') →
  flatten_run sequence_data include_disabled only_disabled = Some (tr ++ tr', s').
Proof.
  intros Hw Hlt Hf.
  pose proof (walk_follow _ _ _ _ _ _ Hw Hlt Hf) as H.
  destruct flatten_run_total as [r Hr].
  rewrite Hr. f_equal. eapply flatten_loop_unique; eauto.
Qed.
End FlattenFacts.

(** ** Cycles with an invalid target *)

(** C1 (as amended).  When the walk of the program counter, below the
    ceiling, stands on an enabled Cycle whose counter (or, on a first visit,
    whose [repeats]) is positive and whose [start_phase - 1] is not a
    position of the program, [_flatten_sequence_for_plot] raises nothing: it
    logs an error that names the Cycle's start phase, leaves the loop and
    returns the steps collected so far. *)
Theorem flatten_invalid_target_returns_collected
    (sequence_data : list instr) (include_disabled : bool)
    (tr : list (nat * branch)) (s : loop_state) (c : cycle) :
  walk sequence_data include_disabled false initial_loop_state tr s →
  iterations s < MAX_ITER →
  sequence_data !! pc s = Some (Cycle c) →
  get_enabled (Cycle c) = true →
  0 < default (repeats c) (cycle_counters s !! pc s) →
  ¬ (0 ≤ start_phase c - 1 < Z.of_nat (length sequence_data)) →
  _flatten_sequence_for_plot sequence_data include_disabled false
  = Some (Returned (flat_list s), logged s ++ [invalid_start_msg c]).
Proof.
  intros Hw Hlt Hi Hen Hpos Hoob.
  set (n := default (repeats c) (cycle_counters s !! pc s)) in *.
  set (counters :=
         match cycle_counters s !! pc s with
         | Some _ => cycle_counters s
         | None => <[pc s := repeats c]> (cycle_counters s)
         end).
  assert (loop_body sequence_data include_disabled false (Cycle c) s
          = (CycleInvalid,
             mkLoop (flat_list s) (pc s) (iterations s)
                    (<[pc s := n - 1]> counters)
                    (logged s ++ [invalid_start_msg c]))) as Hb.
  { assert (default 0 (counters !! pc s) = n) as Hn.
    { subst counters n. destruct (cycle_counters s !! pc s) eqn:E; simpl.
      - by rewrite E.
      - by rewrite lookup_insert_eq. }
    assert ((0 <=? start_phase c - 1)
            && (start_phase c - 1 <? Z.of_nat (length sequence_data)) = false)
      as Hoob'.
    { apply andb_false_iff. rewrite Z.leb_gt, Z.ltb_ge. lia. }
    unfold loop_body. rewrite Hen. cbn [andb negb]. rewrite andb_false_r.
    fold counters. rewrite Hn, Hoob'.
    by replace (0 <? n) with true by (symmetry; by apply Z.ltb_lt). }
  pose proof (flatten_loop_break _ _ _ 0 _ _ _ Hi Hlt Hb) as Hf.
  pose proof (flatten_run_through _ _ _ _ _ _ _ _ Hw Hlt Hf) as Hr.
  unfold _flatten_sequence_for_plot. rewrite Hr. simpl.
  by replace (MAX_ITER <=? iterations s) with false
    by (symmetry; apply Z.leb_gt; lia).
Qed.

Lemma flatten_invalid_target_returns_collected_witness :
  _flatten_sequence_for_plot
    [Phase (mkPhase "Forward" "Fixed" 10 60 "s" None None);
     Cycle (mkCycle 7 7 3 None)] false false
  = Some (Returned [mkPhase "Forward" "Fixed" 10 60 "s" None None],
          [("Error: Invalid start phase #7 in cycle.", "ERROR")]).
Proof.
  apply (flatten_invalid_target_returns_collected
           [Phase (mkPhase "Forward" "Fixed" 10 60 "s" None None);
            Cycle (mkCycle 7 7 3 None)] false
           [(0%nat, AppendPhase)]
           (mkLoop [mkPhase "Forward" "Fixed" 10 60 "s" None None] 1 1 ∅ [])
           (mkCycle 7 7 3 None)).
  - eapply (walk_cons _ _ _ initial_loop_state); [reflexivity|reflexivity|discriminate|].
    apply walk_nil.
  - reflexivity.
  - reflexivity.
  - reflexivity.
  - reflexivity.
  - simpl. lia.
Defined.

(** C1 as stated fails: a program whose only step is an enabled Cycle with
    start phase 5 is flattened without any exception; the call returns the
    empty list and logs the error. *)
Lemma flatten_invalid_target_counterexample :
  let prog := [Cycle (mkCycle 5 5 1 None)] in
  get_enabled (Cycle (mkCycle 5 5 1 None)) = true ∧
  ¬ (0 ≤ start_phase (mkCycle 5 5 1 None) - 1 < Z.of_nat (length prog)) ∧
  _flatten_sequence_for_plot prog false false
  = Some (Returned [], [("Error: Invalid start phase #5 in cycle.", "ERROR")]) ∧
  ¬ (∃ e lg, _flatten_sequence_for_plot prog false false = Some (Raised e, lg)).
Proof.
  simpl. split; [done|]. split; [lia|].
  assert (_flatten_sequence_for_plot [Cycle (mkCycle 5 5 1 None)] false false
          = Some (Returned [], [("Error: Invalid start phase #5 in cycle.", "ERROR")]))
    as H by (vm_compute; reflexivity).
  split; [exact H|].
  intros (e & lg & H'). rewrite H in H'. discriminate.
Qed.

(** ** The iteration ceiling *)

(** C5 (as amended).  [_flatten_sequence_for_plot] raises its
    [RecursionError] exactly when the walk of the program counter gets to
    [MAX_ITER] = 10000 counted turns, whether or not the program ends
    there; and a walk that runs off the end of the program after fewer than
    10000 counted turns makes it return the flattened list. *)
Theorem flatten_raises_iff_ceiling_reached
    (sequence_data : list instr) (include_disabled only_disabled : bool) :
  ((∃ msg lg,
      _flatten_sequence_for_plot sequence_data include_disabled only_disabled
      = Some (Raised (RecursionError msg), lg)) ↔
   (∃ tr s,
      walk sequence_data include_disabled only_disabled initial_loop_state tr s ∧
      iterations s = MAX_ITER)) ∧
  (∀ tr s,
     walk sequence_data include_disabled only_disabled initial_loop_state tr s →
     sequence_data !! pc s = None →
     iterations s < MAX_ITER →
     _flatten_sequence_for_plot sequence_data include_disabled only_disabled
     = Some (Returned (flat_list s), logged s)).
Proof.
  split; [split|].
  - intros (msg & lg & H). unfold _flatten_sequence_for_plot in H.
    destruct (flatten_run _ _ _) as [[tr s]|] eqn:Hr; [|done]. simpl in H.
    destruct (MAX_ITER <=? iterations s) eqn:Hc; [|done].
    apply Z.leb_le in Hc.
    apply flatten_loop_sound in Hr as [Hle Hcase]; [|done].
    destruct Hcase as [[Hw _]|(tr0 & u & i & _ & _ & _ & Hu & Hb)].
    + exists tr, s. split; [done|lia].
    + apply loop_body_iterations in Hb. simpl in Hb. lia.
  - intros (tr & s & Hw & Heq).
    destruct (flatten_run_total sequence_data include_disabled only_disabled)
      as [[tr' sf] Hr].
    pose proof (walk_hits_ceiling _ _ _ _ _ _ _ _ _ Hw ltac:(done) Heq Hr) as Hsf.
    unfold _flatten_sequence_for_plot. rewrite Hr. simpl.
    replace (MAX_ITER <=? iterations sf) with true
      by (symmetry; apply Z.leb_le; lia).
    eauto.
  - intros tr s Hw Hend Hlt.
    pose proof (flatten_loop_halted sequence_data include_disabled only_disabled
                  0 s (or_introl Hend)) as Hf.
    pose proof (flatten_run_through _ _ _ _ _ _ _ _ Hw Hlt Hf) as Hr.
    unfold _flatten_sequence_for_plot. rewrite Hr. simpl.
    by replace (MAX_ITER <=? iterations s) with false
      by (symmetry; apply Z.leb_gt; lia).
Qed.

Lemma flatten_raises_iff_ceiling_reached_witness :
  _flatten_sequence_for_plot
    [Phase (mkPhase "Forward" "Fixed" 10 2 "min" None None);
     Phase (mkPhase "Backward" "Fixed" 5 30 "s" None None)] false false
  = Some (Returned [mkPhase "Forward" "Fixed" 10 2 "min" None None;
                    mkPhase "Backward" "Fixed" 5 30 "s" None None], []).
Proof.
  apply (proj2 (flatten_raises_iff_ceiling_reached
                  [Phase (mkPhase "Forward" "Fixed" 10 2 "min" None None);
                   Phase (mkPhase "Backward" "Fixed" 5 30 "s" None None)]
                  false false)
           [(0%nat, AppendPhase); (1%nat, AppendPhase)]
           (mkLoop [mkPhase "Forward" "Fixed" 10 2 "min" None None;
                    mkPhase "Backward" "Fixed" 5 30 "s" None None] 2 2 ∅ [])).
  - eapply (walk_cons _ _ _ initial_loop_state); [reflexivity|reflexivity|discriminate|].
    eapply (walk_cons _ _ _
              (mkLoop [mkPhase "Forward" "Fixed" 10 2 "min" None None] 1 1 ∅ []));
      [reflexivity|reflexivity|discriminate|].
    apply walk_nil.
  - reflexivity.
  - reflexivity.
Defined.

(** C5 as stated fails at the boundary: the walk of a Phase followed by a
    Cycle that repeats it 4999 times runs off the end of the program after
    exactly 10000 counted turns, so it does not exceed the ceiling, and
    [_flatten_sequence_for_plot] raises all the same. *)
Lemma flatten_ceiling_counterexample :
  let prog := [Phase (mkPhase "Forward" "Fixed" 10 1 "s" None None);
               Cycle (mkCycle 1 1 4999 None)] in
  (∃ tr s,
     walk prog false false initial_loop_state tr s ∧
     prog !! pc s = None ∧ iterations s = 10000) ∧
  ∃ lg, _flatten_sequence_for_plot prog false false
        = Some (Raised (RecursionError "Sequence flattening limit reached"), lg).
Proof.
  intros prog.
  destruct (flatten_run_total prog false false) as [[tr s] Hr].
  assert ((λ r, (pc r.2, iterations r.2)) <$> flatten_run prog false false
          = Some (2%nat, 10000)) as Hv by (vm_compute; reflexivity).
  rewrite Hr in Hv. simpl in Hv. injection Hv as Hpc Hit.
  split.
  - exists tr, s.
    apply flatten_loop_sound in Hr as [_ Hcase]; [|done].
    destruct Hcase as [[Hw _]|(tr0 & u & i & _ & _ & _ & Hu & Hb)].
    + split; [done|]. split; [by rewrite Hpc|done].
    + apply loop_body_iterations in Hb. simpl in Hb. unfold MAX_ITER in Hu. lia.
  - unfold _flatten_sequence_for_plot. rewrite Hr. simpl. rewrite Hit. simpl. eauto.
Qed.

(** ** One Cycle and the stretch it repeats *)



Section CycleRounds.
Variable sequence_data : list instr.
Variable include_disabled : bool.

Local Abbreviation body := (loop_body sequence_data include_disabled false).
Local Abbreviation steps := (walk sequence_data include_disabled false).
Local Abbreviation visible := (visible_phases include_disabled).

(** A step that is not an enabled Cycle moves the program counter on by
    one and touches neither the counters nor the log. *)
Lemma loop_body_plain i u :
  is_enabled_cycle i = false →
  ∃ b, body i u
       = (b, mkLoop (flat_list u ++ visible [i]) (S (pc u))
                    (iterations u + (if counted b then 1 else 0))
                    (cycle_counters u) (logged u))
       ∧ b ≠ CycleJump ∧ b ≠ CycleInvalid.
Proof.
  intros Hi. unfold loop_body, visible_phases. cbn [andb].
  destruct i as [ph|c]; simpl in *.
  - destruct (negb include_disabled && negb (default true (phase_enabled ph))).
    + exists SkipDisabled. simpl. by rewrite app_nil_r, Z.add_0_r.
    + exists AppendPhase. done.
  - rewrite Hi. simpl. rewrite andb_true_r.
    destruct (negb include_disabled).
    + exists SkipDisabled. simpl. by rewrite app_nil_r, Z.add_0_r.
    + exists CycleDisabled. simpl. by rewrite app_nil_r.
Qed.

Lemma visible_phases_cons i l :
  visible (i :: l) = visible [i] ++ visible l.
Proof.
  unfold visible_phases. cbn [omap list_omap app].
  by repeat case_match.
Qed.

(** Walking over [k] steps from position [pc u], none of them an enabled
    Cycle. *)
Lemma walk_stretch k u :
  (pc u + k ≤ length sequence_data)%nat →
  (∀ j i, (pc u ≤ j < pc u + k)%nat → sequence_data !! j = Some i →
          is_enabled_cycle i = false) →
  ∃ tr u',
    steps u tr u' ∧
    Forall (λ x, x.2 ≠ CycleJump) tr ∧
    pc u' = (pc u + k)%nat ∧
    flat_list u' = flat_list u ++ visible (take k (drop (pc u) sequence_data)) ∧
    cycle_counters u' = cycle_counters u ∧
    logged u' = logged u ∧
    iterations u ≤ iterations u' ≤ iterations u + Z.of_nat k.
Proof.
  revert u. induction k as [|k IH]; intros u Hlen Hplain.
  { exists [], u. rewrite Nat.add_0_r. simpl. rewrite app_nil_r.
    repeat split; try done; try lia. constructor. }
  destruct (lookup_lt_is_Some_2 sequence_data (pc u)) as [i Hi]; [lia|].
  destruct (loop_body_plain i u) as (b & Hb & Hnj & Hni).
  { eapply Hplain; [|done]. lia. }
  set (u1 := mkLoop (flat_list u ++ visible [i]) (S (pc u))
                    (iterations u + (if counted b then 1 else 0))
                    (cycle_counters u) (logged u)) in *.
  destruct (IH u1) as (tr & u' & Hw & Hnone & Hpc & Hfl & Hcc & Hlg & Hit).
  { simpl. lia. }
  { intros j i' Hj. apply Hplain. simpl in Hj. lia. }
  exists ((pc u, b) :: tr), u'.
  subst u1. cbn [flat_list pc iterations cycle_counters logged] in *.
  repeat split; try done; try lia.
  - econstructor; eauto.
  - by constructor.
  - rewrite Hfl. rewrite (drop_S _ _ _ Hi). cbn [take].
    rewrite <- app_assoc. f_equal. symmetry. apply visible_phases_cons.
  - destruct (counted b); lia.
  - destruct (counted b); lia.
Qed.

Variable p t : nat.
Variable c : cycle.
Hypothesis Hcycle : sequence_data !! p = Some (Cycle c).
Hypothesis Henabled : get_enabled (Cycle c) = true.
Hypothesis Htarget : start_phase c - 1 = Z.of_nat t.
Hypothesis Hback : (t ≤ p)%nat.
Hypothesis Hplain :
  ∀ j i, (t ≤ j < p)%nat → sequence_data !! j = Some i →
         is_enabled_cycle i = false.



End CycleRounds.




(** ** Total planned duration *)

Lemma duration_s_spec_seconds p : (duration_s p == spec_seconds p)%Q.
Proof.
  unfold duration_s, spec_seconds, unit_factor.
  destruct (String.eqb (duration_unit p) "s") eqn:Es.
  - apply String.eqb_eq in Es. rewrite Es. simpl. ring.
  - destruct (String.eqb (duration_unit p) "min"); [reflexivity|].
    destruct (String.eqb (duration_unit p) "hr"); [reflexivity|ring].
Qed.

Lemma py_sum_from (l : list Q) (a : Q) :
  (fold_left Qplus l a == a + fold_left Qplus l 0)%Q.
Proof.
  revert a. induction l as [|x l IH]; intros a; simpl.
  - ring.
  - rewrite (IH (a + x)%Q), (IH (0 + x)%Q). ring.
Qed.

Lemma py_sum_spec_total (l : list phase) :
  (py_sum (map duration_s l) == spec_total_seconds l)%Q.
Proof.
  unfold py_sum. induction l as [|p l IH]; simpl; [reflexivity|].
  rewrite py_sum_from, IH, duration_s_spec_seconds. ring.
Qed.

(** With both flags off, only enabled Phases of the program get into
    [flat_list]. *)
Lemma walk_flat_enabled (sequence_data : list instr) s tr s' :
  walk sequence_data false false s tr s' →
  Forall (λ p, get_enabled (Phase p) = true ∧ Phase p ∈ sequence_data) (flat_list s) →
  Forall (λ p, get_enabled (Phase p) = true ∧ Phase p ∈ sequence_data) (flat_list s').
Proof.
  induction 1 as [|s i b s1 tr s2 Hi Hb Hne _ IH]; [done|].
  intros Hall. apply IH. clear IH.
  unfold loop_body in Hb. cbn [andb negb] in Hb.
  destruct (get_enabled i) eqn:Hen; cbn [negb] in Hb.
  - destruct i as [ph|c]; [|repeat case_match; by simplify_eq].
    simplify_eq. simpl. apply Forall_app. split; [done|].
    apply Forall_singleton. split; [done|]. by eapply list_elem_of_lookup_2.
  - by simplify_eq.
Qed.

(** C8.  For a program that flattens without error, the total planned
    duration is the sum, over the flattened segments, of the duration in
    seconds (minutes times 60, hours times 3600); every one of these
    segments is an enabled Phase of the program.  A program of one enabled
    Phase of 2 min and one of 30 s has a total of 150 s. *)
Theorem total_duration_is_sum_of_seconds :
  (∀ (sequence_data : list instr) (flat : list phase) (lg : list log_entry),
     _flatten_sequence_for_plot sequence_data false false = Some (Returned flat, lg) →
     Forall (λ p, get_enabled (Phase p) = true ∧ Phase p ∈ sequence_data) flat ∧
     ∃ total,
       _calculate_total_duration sequence_data false = Some (Returned total) ∧
       (total == spec_total_seconds flat)%Q) ∧
  _calculate_total_duration
    [Phase (mkPhase "Forward" "Fixed" 10 2 "min" None (Some true));
     Phase (mkPhase "Forward" "Ramp" 20 30 "s" (Some 1%Q) (Some true))] false
  = Some (Returned 150%Q).
Proof.
  split; [|by vm_compute].
  intros sequence_data flat lg H. split.
  - unfold _flatten_sequence_for_plot in H.
    destruct (flatten_run _ _ _) as [[tr s]|] eqn:Hr; [|done]. simpl in H.
    destruct (MAX_ITER <=? iterations s); simplify_eq.
    apply flatten_loop_sound in Hr as [_ Hcase]; [|done].
    destruct Hcase as [[Hw _]|(tr0 & u & i & _ & Hw & _ & _ & Hb)].
    + by apply (walk_flat_enabled _ _ _ _ Hw).
    + pose proof (walk_flat_enabled _ _ _ _ Hw (Forall_nil_2 _)) as Hall.
      unfold loop_body in Hb. repeat case_match; by simplify_eq.
  - exists (py_sum (map duration_s flat)). split.
    + unfold _calculate_total_duration. by rewrite H.
    + apply py_sum_spec_total.
Qed.

Lemma total_duration_is_sum_of_seconds_witness :
  Forall (λ p, get_enabled (Phase p) = true
               ∧ Phase p ∈ [Phase (mkPhase "Forward" "Fixed" 10 2 "min" None None);
                            Phase (mkPhase "Backward" "Fixed" 5 30 "s" None None)])
         [mkPhase "Forward" "Fixed" 10 2 "min" None None;
          mkPhase "Backward" "Fixed" 5 30 "s" None None] ∧
  ∃ total,
    _calculate_total_duration
      [Phase (mkPhase "Forward" "Fixed" 10 2 "min" None None);
       Phase (mkPhase "Backward" "Fixed" 5 30 "s" None None)] false
    = Some (Returned total) ∧
    (total == spec_total_seconds
                [mkPhase "Forward" "Fixed" 10 2 "min" None None;
                 mkPhase "Backward" "Fixed" 5 30 "s" None None])%Q.
Proof.
  apply (proj1 total_duration_is_sum_of_seconds
           [Phase (mkPhase "Forward" "Fixed" 10 2 "min" None None);
            Phase (mkPhase "Backward" "Fixed" 5 30 "s" None None)]
           [mkPhase "Forward" "Fixed" 10 2 "min" None None;
            mkPhase "Backward" "Fixed" 5 30 "s" None None] []).
  vm_compute. reflexivity.
Defined.

(** C10.  When flattening stops on the iteration ceiling, that is when
    [_flatten_sequence_for_plot] raises its [RecursionError],
    [_calculate_total_duration] catches it and returns 0. *)
Theorem total_duration_zero_on_overflow
    (sequence_data : list instr) (include_disabled : bool)
    (msg : string) (lg : list log_entry) :
  _flatten_sequence_for_plot sequence_data include_disabled false
  = Some (Raised (RecursionError msg), lg) →
  _calculate_total_duration sequence_data include_disabled = Some (Returned 0%Q).
Proof.
  intros H. unfold _calculate_total_duration. by rewrite H.
Qed.

Lemma total_duration_zero_on_overflow_witness :
  _calculate_total_duration
    [Phase (mkPhase "Forward" "Fixed" 10 1 "hr" None None);
     Cycle (mkCycle 1 1 10000 None)] false
  = Some (Returned 0%Q).
Proof.
  apply (total_duration_zero_on_overflow
           [Phase (mkPhase "Forward" "Fixed" 10 1 "hr" None None);
            Cycle (mkCycle 1 1 10000 None)] false
           "Sequence flattening limit reached" [too_many_steps_msg]).
  vm_compute. reflexivity.
Defined.

(** ** Rational arithmetic of the tick loop *)

Lemma Qltb_lt (a b : Q) : Qltb a b = true ↔ (a < b)%Q.
Proof.
  unfold Qltb. rewrite negb_true_iff, <- not_true_iff_false, Qle_bool_iff.
  split; [apply Qnot_le_lt|apply Qlt_not_le].
Qed.


Lemma elapsed_after_S n :
  (elapsed_after (S n) == elapsed_after n + PROGRESS_INTERVAL)%Q.
Proof.
  unfold elapsed_after. rewrite Nat2Z.inj_succ. unfold Z.succ.
  rewrite inject_Z_plus. ring.
Qed.

Lemma elapsed_after_nonneg n : (0 <= elapsed_after n)%Q.
Proof.
  induction n as [|n IH]; [by vm_compute|].
  rewrite elapsed_after_S. unfold PROGRESS_INTERVAL. lra.
Qed.

Lemma elapsed_after_mono n m : (n ≤ m)%nat → (elapsed_after n <= elapsed_after m)%Q.
Proof.
  induction 1 as [|m _ IH]; [lra|].
  rewrite elapsed_after_S. unfold PROGRESS_INTERVAL. lra.
Qed.

Lemma Qdiv_nonneg (a b : Q) : (0 <= a)%Q → (0 < b)%Q → (0 <= a / b)%Q.
Proof. intros Ha Hb. apply Qle_shift_div_l; [done|lra]. Qed.


(** ** The ticks of a Ramp phase *)

Section RampFacts.
Variable p : phase.
Variable start_rpm : Q.
Hypothesis Hramp : mode p = "Ramp".

Local Abbreviation ui := (default 1%Q (update_interval p)).

Lemma tick_body_ramp e :
  tick_body p start_rpm e
  = if Qeq_bool ui 0 then Raised ZeroDivisionError
    else
      let cur :=
        (start_rpm + (rpm p - start_rpm)
                     * (if Qltb 0 (duration_s p) then e / duration_s p else 1))%Q in
      Returned (cur,
                if py_int ((e - PROGRESS_INTERVAL) / ui) <? py_int (e / ui)
                then Some (speed_command cur) else None).
Proof.
  unfold tick_body. rewrite Hramp.
  change (String.eqb "Ramp" "Fixed") with false.
  change (String.eqb "Ramp" "Ramp") with true.
  cbv iota. by repeat case_match.
Qed.


End RampFacts.

(** ** The commands of one phase *)












(** ** The connect handshake *)




(** ** Validation of the target RPM *)

(** What [AddPhaseDialog.on_ok] lets through. *)
Lemma AddPhaseDialog_on_ok_valid r d dir md u ui en ph :
  AddPhaseDialog_on_ok r d dir md u ui en = Returned ph →
  (0 <= rpm ph <= 48)%Q ∧ (0 <= duration ph)%Q ∧
  (mode ph = "Ramp" → ∃ x, update_interval ph = Some x ∧ (0 < x)%Q).
Proof.
  unfold AddPhaseDialog_on_ok. intros H.
  destruct r as [r|], d as [d|]; try done.
  destruct (Qle_bool 0 r) eqn:H1; [|done].
  destruct (Qle_bool r 48) eqn:H2; [|done].
  destruct (Qle_bool 0 d) eqn:H3; [|done].
  apply Qle_bool_iff in H1, H2, H3. cbn [andb negb] in H.
  destruct (String.eqb md "Ramp") eqn:Hm.
  - destruct ui as [x|]; [|done].
    destruct (Qle_bool x 0) eqn:H4; [done|].
    simplify_eq. simpl. repeat split; try done.
    intros _. exists x. split; [done|].
    apply Qnot_le_lt. intros Hx. apply Qle_bool_iff in Hx. congruence.
  - simplify_eq. simpl. repeat split; try done.
    intros ->. done.
Qed.

(** Steps added through the dialog keep every target RPM of the program
    within 0 to 48. *)
Lemma add_phase_keeps_rpm_range sequence_data r d dir md u ui en :
  Forall (λ i, ∀ ph, i = Phase ph → (0 <= rpm ph <= 48)%Q) sequence_data →
  Forall (λ i, ∀ ph, i = Phase ph → (0 <= rpm ph <= 48)%Q)
         (_add_phase sequence_data (AddPhaseDialog_on_ok r d dir md u ui en)).
Proof.
  intros Hall. unfold _add_phase.
  destruct (AddPhaseDialog_on_ok r d dir md u ui en) as [ph|] eqn:E; [|done].
  apply Forall_app. split; [done|]. apply Forall_singleton.
  intros ph' [= <-]. by apply AddPhaseDialog_on_ok_valid in E as [? _].
Qed.

(** C2 at the failing input.  A Phase with target RPM 100 is refused by the
    dialog, but a program file that holds it is loaded as it is: the
    flattener returns the Phase with its RPM of 100, and executing it sends
    the speed command R10000. *)
Theorem load_sequence_skips_rpm_validation :
  let bad := mkPhase "Forward" "Fixed" 100 60 "s" None (Some true) in
  AddPhaseDialog_on_ok (Some 100%Q) (Some 60%Q) "Forward" "Fixed" "s" None (Some true)
  = Raised (ValueError "Invalid RPM or duration value") ∧
  _flatten_sequence_for_plot (_load_sequence [Phase bad]) false false
  = Some (Returned [bad], []) ∧
  (48 < rpm bad)%Q ∧
  sent (_execute_phase bad 0 [EvRun]) = ["K>"; "R10000"].
Proof.
  split; [by vm_compute|]. split; [by vm_compute|]. split; by vm_compute.
Qed.

(** * Further properties of the flattener *)

Lemma flatten_outcome_cases
    (sequence_data : list instr) (include_disabled only_disabled : bool) :
  ∃ lg,
    (∃ flat,
       _flatten_sequence_for_plot sequence_data include_disabled only_disabled
       = Some (Returned flat, lg)) ∨
    _flatten_sequence_for_plot sequence_data include_disabled only_disabled
    = Some (Raised (RecursionError "Sequence flattening limit reached"), lg).
Proof.
  destruct (flatten_run_total sequence_data include_disabled only_disabled)
    as [[tr s] Hr].
  unfold _flatten_sequence_for_plot. rewrite Hr. simpl.
  destruct (MAX_ITER <=? iterations s); eauto.
Qed.

(** X1.  Whatever the program and the flags, the loop of
    [_flatten_sequence_for_plot] comes to an end: the call either returns a
    list or raises its [RecursionError]. *)
Theorem flatten_returns_or_overflows
    (sequence_data : list instr) (include_disabled only_disabled : bool) :
  ∃ lg,
    (∃ flat,
       _flatten_sequence_for_plot sequence_data include_disabled only_disabled
       = Some (Returned flat, lg)) ∨
    _flatten_sequence_for_plot sequence_data include_disabled only_disabled
    = Some (Raised (RecursionError "Sequence flattening limit reached"), lg).
Proof. apply flatten_outcome_cases. Qed.

(** A walk that runs off the end of the program below the ceiling is what
    the call returns. *)
Lemma flatten_returns_at_end sequence_data include_disabled only_disabled tr s :
  walk sequence_data include_disabled only_disabled initial_loop_state tr s →
  sequence_data !! pc s = None →
  iterations s < MAX_ITER →
  _flatten_sequence_for_plot sequence_data include_disabled only_disabled
  = Some (Returned (flat_list s), logged s).
Proof.
  intros Hw Hend Hlt.
  pose proof (flatten_loop_halted sequence_data include_disabled only_disabled
                0 s (or_introl Hend)) as Hf.
  pose proof (flatten_run_through _ _ _ _ _ _ _ _ Hw Hlt Hf) as Hr.
  unfold _flatten_sequence_for_plot. rewrite Hr. simpl.
  by replace (MAX_ITER <=? iterations s) with false
    by (symmetry; apply Z.leb_gt; lia).
Qed.

Lemma walk_flat_length sequence_data include_disabled only_disabled s tr s' :
  walk sequence_data include_disabled only_disabled s tr s' →
  Z.of_nat (length (flat_list s)) ≤ iterations s →
  Z.of_nat (length (flat_list s')) ≤ iterations s'.
Proof.
  induction 1 as [|s i b s1 tr s2 Hi Hb Hne _ IH]; [done|].
  intros Hle. apply IH. clear IH.
  unfold loop_body in Hb.
  repeat case_match; simplify_eq; simpl; rewrite ?length_app; simpl; lia.
Qed.

(** X2.  A list that [_flatten_sequence_for_plot] returns has fewer than 10000
    segments. *)
Theorem flatten_returned_length
    (sequence_data : list instr) (include_disabled only_disabled : bool)
    (flat : list phase) (lg : list log_entry) :
  _flatten_sequence_for_plot sequence_data include_disabled only_disabled
  = Some (Returned flat, lg) →
  Z.of_nat (length flat) < 10000.
Proof.
  unfold _flatten_sequence_for_plot. intros H.
  destruct (flatten_run _ _ _) as [[tr s]|] eqn:Hr; [|done]. simpl in H.
  destruct (MAX_ITER <=? iterations s) eqn:Hc; simplify_eq.
  apply Z.leb_gt in Hc. unfold MAX_ITER in Hc.
  apply flatten_loop_sound in Hr as [_ Hcase]; [|done].
  assert (Z.of_nat (length (flat_list s)) ≤ iterations s); [|lia].
  destruct Hcase as [[Hw _]|(tr0 & u & i & _ & Hw & _ & _ & Hb)].
  - by apply (walk_flat_length _ _ _ _ _ _ Hw).
  - pose proof (walk_flat_length _ _ _ _ _ _ Hw ltac:(done)) as Hu.
    unfold loop_body in Hb. repeat case_match; by simplify_eq.
Qed.

Lemma flatten_returned_length_witness :
  Z.of_nat (length [mkPhase "Forward" "Fixed" 10 60 "s" None None;
                    mkPhase "Forward" "Fixed" 10 60 "s" None None]) < 10000.
Proof.
  apply (flatten_returned_length
           [Phase (mkPhase "Forward" "Fixed" 10 60 "s" None None);
            Cycle (mkCycle 1 1 1 None)] false false
           [mkPhase "Forward" "Fixed" 10 60 "s" None None;
            mkPhase "Forward" "Fixed" 10 60 "s" None None] []).
  vm_compute. reflexivity.
Defined.

(** X3.  A program without enabled Cycle steps and with fewer than 10000 steps
    is flattened to its Phases in their order, without the disabled ones
    unless [include_disabled] is set, and nothing is logged. *)
Theorem flatten_without_cycles
    (sequence_data : list instr) (include_disabled : bool) :
  Forall (λ i, is_enabled_cycle i = false) sequence_data →
  Z.of_nat (length sequence_data) < 10000 →
  _flatten_sequence_for_plot sequence_data include_disabled false
  = Some (Returned (visible_phases include_disabled sequence_data), []).
Proof.
  intros Hplain Hlen.
  destruct (walk_stretch sequence_data include_disabled (length sequence_data)
              initial_loop_state)
    as (tr & s & Hw & _ & Hpc & Hfl & _ & Hlg & Hit); [simpl; lia|..].
  { intros j i _ Hj. eapply Forall_lookup_1 in Hplain; eauto. }
  simpl in *. rewrite drop_0, firstn_all in Hfl.
  rewrite (flatten_returns_at_end _ _ _ tr s Hw).
  - by rewrite Hfl, Hlg.
  - apply lookup_ge_None. lia.
  - unfold MAX_ITER. lia.
Qed.

Section OnlyDisabled.
Variable sequence_data : list instr.
Variable include_disabled : bool.

Local Abbreviation body := (loop_body sequence_data include_disabled true).
Local Abbreviation steps := (walk sequence_data include_disabled true).

(** With [only_disabled] set no turn jumps: an enabled step is skipped, a
    disabled one is skipped, appended or passed over. *)
Lemma loop_body_only_disabled i u :
  ∃ b, body i u
       = (b, mkLoop (flat_list u
                       ++ (if include_disabled then disabled_phases [i] else []))
                    (S (pc u))
                    (iterations u
                       + (if include_disabled
                          then Z.of_nat (count_disabled [i]) else 0))
                    (cycle_counters u) (logged u))
       ∧ b ≠ CycleInvalid.
Proof.
  unfold loop_body, disabled_phases, count_disabled. cbn [andb omap list_omap].
  destruct (get_enabled i) eqn:Hen.
  - exists SkipEnabled. rewrite filter_cons_False by (by rewrite Hen).
    destruct i; rewrite ?Hen; destruct include_disabled;
      simpl; by rewrite app_nil_r, Z.add_0_r.
  - cbn [negb]. rewrite andb_true_r.
    rewrite filter_cons_True by done.
    destruct include_disabled; cbn [negb].
    + destruct i as [ph|c].
      * exists AppendPhase. done.
      * exists CycleDisabled. simpl. by rewrite app_nil_r.
    + exists SkipDisabled. simpl. by rewrite app_nil_r, Z.add_0_r.
Qed.

Lemma disabled_phases_cons i l :
  disabled_phases (i :: l) = disabled_phases [i] ++ disabled_phases l.
Proof. unfold disabled_phases. cbn [omap list_omap app]. by repeat case_match. Qed.

Lemma count_disabled_cons i l :
  count_disabled (i :: l) = (count_disabled [i] + count_disabled l)%nat.
Proof.
  unfold count_disabled. destruct (get_enabled i) eqn:Hen.
  - rewrite !filter_cons_False by (by rewrite Hen). done.
  - rewrite !filter_cons_True by done. done.
Qed.

Lemma walk_only_disabled k u :
  (pc u + k ≤ length sequence_data)%nat →
  ∃ tr u',
    steps u tr u' ∧
    pc u' = (pc u + k)%nat ∧
    flat_list u'
    = flat_list u
        ++ (if include_disabled
            then disabled_phases (take k (drop (pc u) sequence_data)) else []) ∧
    iterations u'
    = iterations u
      + (if include_disabled
         then Z.of_nat (count_disabled (take k (drop (pc u) sequence_data)))
         else 0) ∧
    logged u' = logged u.
Proof.
  revert u. induction k as [|k IH]; intros u Hlen.
  { exists [], u. rewrite Nat.add_0_r. cbn [take].
    split; [constructor|]. split; [done|].
    destruct include_disabled; cbn; by rewrite app_nil_r, Z.add_0_r. }
  destruct (lookup_lt_is_Some_2 sequence_data (pc u)) as [i Hi]; [lia|].
  destruct (loop_body_only_disabled i u) as (b & Hb & Hni).
  match type of Hb with _ = (_, ?x) => set (u1 := x) in * end.
  destruct (IH u1) as (tr & u' & Hw & Hpc & Hfl & Hit & Hlg); [simpl; lia|].
  exists ((pc u, b) :: tr), u'.
  subst u1. cbn [flat_list pc iterations cycle_counters logged] in *.
  split; [econstructor; eauto|]. split; [lia|].
  rewrite Hfl, Hit, (drop_S _ _ _ Hi). cbn [take].
  rewrite (disabled_phases_cons i (take k (drop (S (pc u)) sequence_data))),
    (count_disabled_cons i (take k (drop (S (pc u)) sequence_data))).
  destruct include_disabled; rewrite <- ?app_assoc; repeat split; try done; lia.
Qed.
End OnlyDisabled.

(** X4.  With [only_disabled] set and [include_disabled] not set every step is
    skipped: the call returns the empty list for every program, however
    long. *)
Theorem flatten_only_disabled_excluded (sequence_data : list instr) :
  _flatten_sequence_for_plot sequence_data false true = Some (Returned [], []).
Proof.
  destruct (walk_only_disabled sequence_data false (length sequence_data)
              initial_loop_state)
    as (tr & s & Hw & Hpc & Hfl & Hit & Hlg); [simpl; lia|].
  simpl in *.
  rewrite (flatten_returns_at_end _ _ _ tr s Hw).
  - by rewrite Hfl, Hlg.
  - apply lookup_ge_None. lia.
  - rewrite Hit. done.
Qed.

(** X5.  With both flags set, as the plot of the disabled steps calls it, the
    program is passed over once without any jump: when it has fewer than
    10000 disabled steps the call returns its disabled Phases in their
    order, and nothing is logged. *)
Theorem flatten_only_disabled_included (sequence_data : list instr) :
  Z.of_nat (count_disabled sequence_data) < 10000 →
  _flatten_sequence_for_plot sequence_data true true
  = Some (Returned (disabled_phases sequence_data), []).
Proof.
  intros Hcount.
  destruct (walk_only_disabled sequence_data true (length sequence_data)
              initial_loop_state)
    as (tr & s & Hw & Hpc & Hfl & Hit & Hlg); [simpl; lia|].
  simpl in *. rewrite drop_0, firstn_all in Hfl, Hit.
  rewrite (flatten_returns_at_end _ _ _ tr s Hw).
  - by rewrite Hfl, Hlg.
  - apply lookup_ge_None. lia.
  - rewrite Hit. unfold MAX_ITER. lia.
Qed.

Lemma flatten_without_cycles_witness :
  _flatten_sequence_for_plot
    [Phase (mkPhase "Forward" "Fixed" 10 60 "s" None None);
     Phase (mkPhase "Backward" "Ramp" 20 5 "min" None (Some false));
     Cycle (mkCycle 1 2 3 (Some false))] false false
  = Some (Returned [mkPhase "Forward" "Fixed" 10 60 "s" None None], []).
Proof.
  apply (flatten_without_cycles
           [Phase (mkPhase "Forward" "Fixed" 10 60 "s" None None);
            Phase (mkPhase "Backward" "Ramp" 20 5 "min" None (Some false));
            Cycle (mkCycle 1 2 3 (Some false))] false).
  - repeat constructor.
  - simpl. lia.
Defined.

Lemma flatten_only_disabled_included_witness :
  _flatten_sequence_for_plot
    [Phase (mkPhase "Forward" "Fixed" 10 60 "s" None None);
     Phase (mkPhase "Backward" "Ramp" 20 5 "min" None (Some false));
     Cycle (mkCycle 1 2 3 None)] true true
  = Some (Returned [mkPhase "Backward" "Ramp" 20 5 "min" None (Some false)], []).
Proof.
  apply (flatten_only_disabled_included
           [Phase (mkPhase "Forward" "Fixed" 10 60 "s" None None);
            Phase (mkPhase "Backward" "Ramp" 20 5 "min" None (Some false));
            Cycle (mkCycle 1 2 3 None)]).
  vm_compute. reflexivity.
Defined.

(** Every segment of [flat_list] is a Phase of the program. *)
Lemma walk_flat_member sequence_data include_disabled only_disabled s tr s' :
  walk sequence_data include_disabled only_disabled s tr s' →
  Forall (λ p, Phase p ∈ sequence_data) (flat_list s) →
  Forall (λ p, Phase p ∈ sequence_data) (flat_list s').
Proof.
  induction 1 as [|s i b s1 tr s2 Hi Hb Hne _ IH]; [done|].
  intros Hall. apply IH. clear IH.
  unfold loop_body in Hb.
  repeat case_match; simplify_eq; simpl; try done.
  apply Forall_app. split; [done|].
  apply Forall_singleton. by eapply list_elem_of_lookup_2.
Qed.

Lemma flatten_flat_member sequence_data include_disabled only_disabled flat lg :
  _flatten_sequence_for_plot sequence_data include_disabled only_disabled
  = Some (Returned flat, lg) →
  Forall (λ p, Phase p ∈ sequence_data) flat.
Proof.
  unfold _flatten_sequence_for_plot. intros H.
  destruct (flatten_run _ _ _) as [[tr s]|] eqn:Hr; [|done]. simpl in H.
  destruct (MAX_ITER <=? iterations s); simplify_eq.
  apply flatten_loop_sound in Hr as [_ Hcase]; [|done].
  destruct Hcase as [[Hw _]|(tr0 & u & i & _ & Hw & _ & _ & Hb)].
  - by apply (walk_flat_member _ _ _ _ _ _ Hw).
  - pose proof (walk_flat_member _ _ _ _ _ _ Hw (Forall_nil_2 _)) as Hall.
    unfold loop_body in Hb. repeat case_match; by simplify_eq.
Qed.

(** ** Sums over the flattened list *)

Lemma py_sum_nonneg (l : list Q) :
  Forall (λ x, 0 <= x)%Q l → (0 <= py_sum l)%Q.
Proof.
  unfold py_sum. induction 1 as [|x l Hx _ IH]; simpl; [lra|].
  rewrite py_sum_from. lra.
Qed.

Lemma unit_factor_pos u : (0 < unit_factor u)%Q.
Proof. unfold unit_factor. by repeat case_match. Qed.

Lemma duration_s_nonneg p : (0 <= duration p)%Q → (0 <= duration_s p)%Q.
Proof.
  intros H. unfold duration_s.
  apply Qmult_le_0_compat; [done|]. apply Qlt_le_weak, unit_factor_pos.
Qed.

(** X6.  [_calculate_total_duration] never raises, and the total of a program
    whose Phases have no negative duration is not negative. *)
Theorem total_duration_never_raises
    (sequence_data : list instr) (include_disabled : bool) :
  ∃ total,
    _calculate_total_duration sequence_data include_disabled
    = Some (Returned total) ∧
    (Forall (λ i, ∀ p, i = Phase p → 0 <= duration p)%Q sequence_data →
     (0 <= total)%Q).
Proof.
  unfold _calculate_total_duration.
  destruct (flatten_outcome_cases sequence_data include_disabled false)
    as [lg [[flat H]|H]]; rewrite H; simpl.
  - eexists. split; [done|]. intros Hdur.
    apply py_sum_nonneg, Forall_map.
    eapply Forall_impl; [by eapply flatten_flat_member|].
    intros p Hp. simpl. apply duration_s_nonneg.
    rewrite Forall_forall in Hdur. exact (Hdur (Phase p) Hp p eq_refl).
  - eexists. split; [done|]. intros _. lra.
Qed.

Lemma total_duration_never_raises_witness :
  ∃ total,
    _calculate_total_duration
      [Phase (mkPhase "Forward" "Fixed" 10 2 "min" None None);
       Cycle (mkCycle 1 1 2 None)] false
    = Some (Returned total) ∧
    (Forall (λ i, ∀ p, i = Phase p → 0 <= duration p)%Q
            [Phase (mkPhase "Forward" "Fixed" 10 2 "min" None None);
             Cycle (mkCycle 1 1 2 None)] →
     (0 <= total)%Q).
Proof.
  apply (total_duration_never_raises
           [Phase (mkPhase "Forward" "Fixed" 10 2 "min" None None);
            Cycle (mkCycle 1 1 2 None)] false).
Defined.

(** ** The shear-stress estimate *)

Lemma total_weighted_rpm_bounds (hi : Q) (flat : list phase) :
  Forall (λ p, 0 <= rpm p <= hi ∧ 0 <= duration_s p)%Q flat →
  (0 <= total_weighted_rpm flat <= hi * py_sum (map duration_s flat))%Q.
Proof.
  unfold total_weighted_rpm, py_sum.
  assert (∀ a b : Q,
            Forall (λ p, 0 <= rpm p <= hi ∧ 0 <= duration_s p)%Q flat →
            (0 <= a <= hi * b)%Q →
            (0 <= fold_left (λ acc step, acc + rpm step * duration_s step) flat a
             <= hi * fold_left Qplus (map duration_s flat) b)%Q) as Hgen.
  { induction flat as [|p flat IH]; intros a b Hall Hab; simpl; [done|].
    inversion Hall as [|? ? [[Hr0 Hr1] Hd] Hall']; subst.
    apply IH; [done|].
    pose proof (Qmult_le_0_compat _ _ Hr0 Hd) as H0.
    pose proof (Qmult_le_compat_r _ _ _ Hr1 Hd) as H1.
    split; [lra|]. rewrite Qmult_plus_distr_r. lra. }
  intros Hall. apply Hgen; [done|lra].
Qed.

(** X7.  The shear stress shown for a program whose Phases have a target RPM
    from 0 to 48 and no negative duration, with settings that are not
    negative, lies between 0 and the value for a constant 48 RPM; it is
    replaced by N/A exactly when flattening stops on the iteration ceiling,
    and the total shown is then 0. *)
Theorem shear_stress_bounded
    (sequence_data : list instr) (eta p_const k_coeff : Q) :
  Forall (λ i, ∀ p, i = Phase p → 0 <= rpm p <= 48 ∧ 0 <= duration p)%Q
         sequence_data →
  (0 <= eta)%Q → (0 <= p_const)%Q → (0 <= k_coeff)%Q →
  ∃ total shown,
    _update_total_duration sequence_data eta p_const k_coeff
    = Some (Returned (total, shown)) ∧
    (∀ tau, shown = Some tau →
            (0 <= tau <= eta * p_const * (k_coeff * 48))%Q) ∧
    (shown = None ↔
     ∃ lg, _flatten_sequence_for_plot sequence_data false false
           = Some (Raised (RecursionError "Sequence flattening limit reached"), lg)) ∧
    (shown = None → total = 0%Q).
Proof.
  intros Hvalid Heta Hp Hk.
  unfold _update_total_duration, _calculate_total_duration.
  destruct (flatten_outcome_cases sequence_data false false)
    as [lg [[flat H]|H]]; rewrite H; simpl.
  - eexists _, _. split; [done|]. split; [|split; [|done]].
    + intros tau [= <-].
      assert (Forall (λ p, 0 <= rpm p <= 48 ∧ 0 <= duration_s p)%Q flat) as Hflat.
      { eapply Forall_impl; [by eapply flatten_flat_member|].
        intros p Hin. simpl. rewrite Forall_forall in Hvalid.
        destruct (Hvalid (Phase p) Hin p eq_refl) as [Hr Hd].
        split; [done|by apply duration_s_nonneg]. }
      pose proof (total_weighted_rpm_bounds 48 flat Hflat) as [Hw0 Hw1].
      set (total := py_sum (map duration_s flat)) in *.
      set (w := total_weighted_rpm flat) in *.
      assert (0 <= (if Qltb 0 total then w / total else 0) <= 48)%Q as [Ha0 Ha1].
      { destruct (Qltb 0 total) eqn:Ht; [|lra].
        apply Qltb_lt in Ht. split.
        - by apply Qdiv_nonneg.
        - apply Qle_shift_div_r; [done|]. lra. }
      set (avg := if Qltb 0 total then (w / total)%Q else 0%Q) in *.
      pose proof (Qmult_le_0_compat _ _ Heta Hp) as Hep.
      pose proof (Qmult_le_0_compat _ _ Hk Ha0) as Hka.
      split; [by apply Qmult_le_0_compat|].
      rewrite !(Qmult_comm (eta * p_const)).
      apply Qmult_le_compat_r; [|done].
      rewrite !(Qmult_comm k_coeff). by apply Qmult_le_compat_r.
    + split; [done|]. intros [lg' H']. done.
  - eexists _, _. split; [done|]. split; [done|]. split; [|done].
    split; [eauto|done].
Qed.

Lemma shear_stress_bounded_witness :
  ∃ total shown,
    _update_total_duration
      [Phase (mkPhase "Forward" "Fixed" 10 60 "s" None None);
       Phase (mkPhase "Forward" "Ramp" 30 2 "min" None None)]
      (7 # 1000) (1761 # 10) (63 # 100)
    = Some (Returned (total, shown)) ∧
    (∀ tau, shown = Some tau →
            (0 <= tau <= (7 # 1000) * (1761 # 10) * ((63 # 100) * 48))%Q) ∧
    (shown = None ↔
     ∃ lg, _flatten_sequence_for_plot
             [Phase (mkPhase "Forward" "Fixed" 10 60 "s" None None);
              Phase (mkPhase "Forward" "Ramp" 30 2 "min" None None)] false false
           = Some (Raised (RecursionError "Sequence flattening limit reached"), lg)) ∧
    (shown = None → total = 0%Q).
Proof.
  apply (shear_stress_bounded
           [Phase (mkPhase "Forward" "Fixed" 10 60 "s" None None);
            Phase (mkPhase "Forward" "Ramp" 30 2 "min" None None)]
           (7 # 1000) (1761 # 10) (63 # 100)).
  - apply Forall_cons_2.
    { intros p [= <-]. split; [split|]; vm_compute; discriminate. }
    apply Forall_cons_2.
    { intros p [= <-]. split; [split|]; vm_compute; discriminate. }
    apply Forall_nil_2.
  - vm_compute. discriminate.
  - vm_compute. discriminate.
  - vm_compute. discriminate.
Defined.

(** * Further properties of the phase loop *)

Section PhaseLoopFacts.
Variable p : phase.
Variable start_rpm : Q.

(** [elapsed] at every running tick, whatever the mode. *)
Lemma phase_loop_ticks_elapsed env :
  ∀ (m : nat) (e0 : Q),
    (e0 == elapsed_after m)%Q →
    ∀ k tk,
      ticks (phase_loop p start_rpm env e0) !! k = Some tk →
      (t_elapsed tk == elapsed_after (S (m + k)))%Q ∧
      (t_elapsed tk - PROGRESS_INTERVAL < duration_s p)%Q.
Proof.
  induction env as [|ev env IH]; intros m e0 He0 k tk Hk.
  { cbn [phase_loop] in Hk. by destruct (Qltb e0 (duration_s p)). }
  cbn [phase_loop] in Hk.
  destruct (Qltb e0 (duration_s p)) eqn:Hlt; [|by destruct ev].
  apply Qltb_lt in Hlt.
  assert (∀ k' tk',
            ticks (phase_loop p start_rpm env (e0 + PROGRESS_INTERVAL)%Q) !! k'
            = Some tk' →
            (t_elapsed tk' == elapsed_after (S (m + S k')))%Q ∧
            (t_elapsed tk' - PROGRESS_INTERVAL < duration_s p)%Q) as Hrest.
  { intros k' tk' Hk'.
    apply (IH (S m)) in Hk'; [|by rewrite elapsed_after_S, He0].
    by rewrite <- Nat.add_succ_comm. }
  assert ((e0 + PROGRESS_INTERVAL == elapsed_after (S (m + 0)))%Q ∧
          (e0 + PROGRESS_INTERVAL - PROGRESS_INTERVAL < duration_s p)%Q) as Hnow.
  { rewrite Nat.add_0_r, elapsed_after_S, He0. split; [reflexivity|lra]. }
  destruct ev.
  - destruct (tick_body p start_rpm (e0 + PROGRESS_INTERVAL)%Q)
      as [[cur cmd]|]; [|done].
    destruct k as [|k]; [by injection Hk as <-|by apply Hrest].
  - by apply (IH m e0).
  - done.
  - destruct (tick_body p start_rpm (e0 + PROGRESS_INTERVAL)%Q)
      as [[cur cmd]|]; [|done].
    destruct k as [|k]; [by injection Hk as <-|done].
Qed.

(** A phase whose mode is Fixed, or Ramp with an update interval other than
    0, has a tick body that does not raise. *)
Lemma tick_body_runnable e :
  mode p = "Fixed"
  ∨ (mode p = "Ramp" ∧ ¬ (default 1%Q (update_interval p) == 0)%Q) →
  ∃ cur cmd, tick_body p start_rpm e = Returned (cur, cmd).
Proof.
  intros [Hm|[Hm Hui]]; unfold tick_body; rewrite Hm.
  - eauto.
  - change (String.eqb "Ramp" "Fixed") with false.
    change (String.eqb "Ramp" "Ramp") with true. cbv iota.
    destruct (Qeq_bool _ 0) eqn:Hz.
    + apply Qeq_bool_iff in Hz. done.
    + destruct (_ <? _); eauto.
Qed.

Lemma phase_loop_completes (n : nat) :
  mode p = "Fixed"
  ∨ (mode p = "Ramp" ∧ ¬ (default 1%Q (update_interval p) == 0)%Q) →
  ∀ (m : nat) (e0 : Q),
    (e0 == elapsed_after m)%Q →
    (duration_s p <= elapsed_after (m + n))%Q →
    status (phase_loop p start_rpm (replicate n EvRun) e0) = PhaseDone ∧
    (duration_s p
     <= elapsed_after (m + length (ticks (phase_loop p start_rpm
                                             (replicate n EvRun) e0))))%Q ∧
    ∀ i, (i < length (ticks (phase_loop p start_rpm (replicate n EvRun) e0)))%nat →
         (elapsed_after (m + i) < duration_s p)%Q.
Proof.
  intros Hrun. induction n as [|n IH]; intros m e0 He0 Hn.
  - cbn [replicate phase_loop]. rewrite Nat.add_0_r in Hn.
    replace (Qltb e0 (duration_s p)) with false
      by (symmetry; apply not_true_iff_false; rewrite Qltb_lt, He0; lra).
    cbn. rewrite Nat.add_0_r. split; [done|]. split; [done|]. intros i Hi. lia.
  - cbn [replicate phase_loop].
    destruct (Qltb e0 (duration_s p)) eqn:Hlt.
    + apply Qltb_lt in Hlt.
      destruct (tick_body_runnable (e0 + PROGRESS_INTERVAL)%Q Hrun)
        as (cur & cmd & ->).
      cbn [status ticks length].
      destruct (IH (S m) (e0 + PROGRESS_INTERVAL)%Q) as (Hst & Hge & Hlt').
      { by rewrite elapsed_after_S, He0. }
      { by rewrite Nat.add_succ_comm. }
      split; [done|]. split; [by rewrite <- Nat.add_succ_comm|].
      intros [|i] Hi.
      * rewrite Nat.add_0_r, <- He0. done.
      * rewrite <- Nat.add_succ_comm. apply Hlt'. lia.
    + apply not_true_iff_false in Hlt. rewrite Qltb_lt in Hlt.
      cbn. rewrite Nat.add_0_r, <- He0.
      split; [done|]. split; [lra|]. intros i Hi. lia.
Qed.

Lemma phase_loop_pause_free env e0 :
  Forall (λ ev, ev = EvRun ∨ ev = EvPaused) env →
  phase_loop p start_rpm env e0
  = phase_loop p start_rpm (filter (λ ev, ev ≠ EvPaused) env) e0.
Proof.
  intros Hall. revert e0.
  induction Hall as [|ev env [->| ->] Hall IH]; intros e0; [done|..].
  - rewrite filter_cons_True by done. cbn [phase_loop].
    destruct (Qltb e0 (duration_s p)); [|by destruct (filter _ env)].
    destruct (tick_body p start_rpm (e0 + PROGRESS_INTERVAL)%Q) as [[cur cmd]|];
      [|done].
    by rewrite IH.
  - rewrite filter_cons_False by (intros H; by apply H).
    cbn [phase_loop]. rewrite <- IH.
    destruct (Qltb e0 (duration_s p)) eqn:Hlt; [done|].
    destruct env as [|ev env]; cbn [phase_loop]; rewrite Hlt; [done|].
    inversion Hall as [|? ? [->| ->] ?]; done.
Qed.
End PhaseLoopFacts.

(** X8.  The value given to the step progress bar after a tick is positive, is
    at most 100 as long as [elapsed] has not passed the duration, and
    overshoots 100 by less than the share of one tick period. *)
Theorem step_progress_at_ticks
    (p : phase) (start_rpm : Q) (env : list env_event)
    (k : nat) (tk : tick_record) :
  ticks (_execute_phase p start_rpm env) !! k = Some tk →
  (0 < step_progress (t_elapsed tk) (duration_s p))%Q ∧
  (step_progress (t_elapsed tk) (duration_s p) * duration_s p
   < 100 * (duration_s p + PROGRESS_INTERVAL))%Q ∧
  ((t_elapsed tk <= duration_s p)%Q →
   (step_progress (t_elapsed tk) (duration_s p) <= 100)%Q).
Proof.
  intros Hk. unfold _execute_phase in Hk. cbn [ticks] in Hk.
  destruct (phase_loop_ticks_elapsed p start_rpm env 0 0%Q
              ltac:(reflexivity) k tk Hk) as [He Hlt].
  pose proof (elapsed_after_nonneg (S k)) as H0.
  pose proof (elapsed_after_S k) as HS.
  pose proof (elapsed_after_nonneg k) as Hk0.
  simpl in He.
  assert (0 < t_elapsed tk)%Q as Hpos
    by (rewrite He, HS; unfold PROGRESS_INTERVAL; lra).
  assert (0 < duration_s p)%Q as Hdur
    by (rewrite He, HS in Hlt; lra).
  unfold step_progress.
  replace (Qltb 0 (duration_s p)) with true by (symmetry; by apply Qltb_lt).
  assert (t_elapsed tk / duration_s p * 100 * duration_s p
          == 100 * t_elapsed tk)%Q as Heq by (field; lra).
  split; [|split].
  - apply Qmult_lt_0_compat; [|done].
    apply Qlt_shift_div_l; [done|lra].
  - rewrite Heq. lra.
  - intros Hle. apply Qmult_le_r with (z := duration_s p); [done|].
    rewrite Heq. lra.
Qed.

Lemma step_progress_at_ticks_witness :
  ∃ tk,
    ticks (_execute_phase (mkPhase "Forward" "Fixed" 10 (1 # 4) "s" None None) 0
                          [EvRun; EvRun; EvRun]) !! 2%nat = Some tk ∧
    (0 < step_progress (t_elapsed tk) (1 # 4))%Q ∧
    (step_progress (t_elapsed tk) (1 # 4) * (1 # 4)
     < 100 * ((1 # 4) + PROGRESS_INTERVAL))%Q ∧
    ((t_elapsed tk <= 1 # 4)%Q → (step_progress (t_elapsed tk) (1 # 4) <= 100)%Q).
Proof.
  eexists. split; [vm_compute; reflexivity|].
  apply (step_progress_at_ticks
           (mkPhase "Forward" "Fixed" 10 (1 # 4) "s" None None) 0%Q
           [EvRun; EvRun; EvRun] 2%nat).
  vm_compute. reflexivity.
Defined.



(** X10.  A turn of the tick loop that finds the phase paused changes nothing:
    with no stop, the commands sent, the ticks and the way the phase ends
    are those of the same run without its paused turns. *)
Theorem paused_turns_change_nothing
    (p : phase) (start_rpm : Q) (env : list env_event) :
  Forall (λ ev, ev = EvRun ∨ ev = EvPaused) env →
  _execute_phase p start_rpm env
  = _execute_phase p start_rpm (filter (λ ev, ev ≠ EvPaused) env).
Proof.
  intros Hall. unfold _execute_phase.
  by rewrite <- (phase_loop_pause_free p start_rpm env 0%Q Hall).
Qed.

Lemma paused_turns_change_nothing_witness :
  _execute_phase (mkPhase "Forward" "Ramp" 24 1 "s" (Some (1 # 5)) None) 0
                 [EvRun; EvPaused; EvPaused; EvRun; EvPaused]
  = _execute_phase (mkPhase "Forward" "Ramp" 24 1 "s" (Some (1 # 5)) None) 0
                   (filter (λ ev, ev ≠ EvPaused)
                           [EvRun; EvPaused; EvPaused; EvRun; EvPaused]).
Proof.
  apply (paused_turns_change_nothing
           (mkPhase "Forward" "Ramp" 24 1 "s" (Some (1 # 5)) None) 0
           [EvRun; EvPaused; EvPaused; EvRun; EvPaused]).
  repeat (apply Forall_cons_2; [by (left + right)|]). apply Forall_nil_2.
Defined.

(** X11.  A Ramp phase whose update interval is 0 never completes a tick: the
    division by the interval raises at the first running tick, so only the
    direction command is sent, no sample is yielded, and the phase does not
    end normally. *)
Theorem ramp_zero_interval_never_ticks
    (p : phase) (start_rpm : Q) (ui : Q) (env : list env_event) :
  mode p = "Ramp" →
  update_interval p = Some ui →
  (ui == 0)%Q →
  (0 < duration_s p)%Q →
  ticks (_execute_phase p start_rpm env) = [] ∧
  sent (_execute_phase p start_rpm env)
  = [if String.eqb (direction p) "Forward" then "K>" else "K<"] ∧
  status (_execute_phase p start_rpm env) ≠ PhaseDone ∧
  status (_execute_phase p start_rpm (EvRun :: env)) = PhaseCrashed ZeroDivisionError.
Proof.
  intros Hm Hui Hz Hdur.
  assert (∀ e, tick_body p start_rpm e = Raised ZeroDivisionError) as Hbody.
  { intros e. rewrite (tick_body_ramp p start_rpm Hm), Hui. simpl.
    by replace (Qeq_bool ui 0) with true by (symmetry; by apply Qeq_bool_iff). }
  assert (Qltb 0 (duration_s p) = true) as Hlt by (by apply Qltb_lt).
  assert (∀ env', ticks (phase_loop p start_rpm env' 0) = [] ∧
                  sent (phase_loop p start_rpm env' 0) = [] ∧
                  status (phase_loop p start_rpm env' 0) ≠ PhaseDone) as Hloop.
  { induction env' as [|ev env' IH]; cbn [phase_loop]; rewrite Hlt; [done|].
    destruct ev; rewrite ?Hbody; done. }
  destruct (Hloop env) as (Ht & Hs & Hst).
  unfold _execute_phase. cbn [ticks sent status]. rewrite Hm, Ht, Hs.
  change (String.eqb "Ramp" "Fixed") with false. cbv iota.
  repeat split; try done.
  cbn [phase_loop]. by rewrite Hlt, Hbody.
Qed.

Lemma ramp_zero_interval_never_ticks_witness :
  ticks (_execute_phase (mkPhase "Forward" "Ramp" 24 10 "s" (Some 0%Q) None) 0
                        [EvPaused; EvRun]) = [] ∧
  sent (_execute_phase (mkPhase "Forward" "Ramp" 24 10 "s" (Some 0%Q) None) 0
                       [EvPaused; EvRun])
  = ["K>"] ∧
  status (_execute_phase (mkPhase "Forward" "Ramp" 24 10 "s" (Some 0%Q) None) 0
                         [EvPaused; EvRun]) ≠ PhaseDone ∧
  status (_execute_phase (mkPhase "Forward" "Ramp" 24 10 "s" (Some 0%Q) None) 0
                         (EvRun :: [EvPaused; EvRun]))
  = PhaseCrashed ZeroDivisionError.
Proof.
  apply (ramp_zero_interval_never_ticks
           (mkPhase "Forward" "Ramp" 24 10 "s" (Some 0%Q) None) 0 0%Q
           [EvPaused; EvRun]).
  - reflexivity.
  - reflexivity.
  - reflexivity.
  - reflexivity.
Defined.

(** * Programs put together with the dialogs *)






(** * Editing the program *)

Lemma fold_py_insert {A : Type} (k : nat) (items l : list A) :
  (k ≤ length l)%nat →
  fold_left (λ l x, py_insert k x l) items l
  = take k l ++ rev items ++ drop k l.
Proof.
  revert l. induction items as [|x items IH]; intros l Hk; simpl.
  { by rewrite take_drop. }
  rewrite IH by (unfold py_insert; rewrite length_app, length_take; simpl; lia).
  unfold py_insert.
  rewrite take_app_length' by (rewrite length_take; lia).
  rewrite drop_app_length' by (rewrite length_take; lia).
  by rewrite <- app_assoc.
Qed.

(** X13.  Pasting the clipboard, or inserting a template, puts its steps in their
    order right after the first selected row, or at the end of the program
    when no row is selected; the steps of the program keep their order
    around them. *)
Theorem paste_inserts_after_selection
    (items : list instr) (sel : option nat) (sequence_data : list instr) :
  (∀ i, sel = Some i → (i < length sequence_data)%nat) →
  _paste_item items sel sequence_data
  = take (from_option S (length sequence_data) sel) sequence_data
      ++ items
      ++ drop (from_option S (length sequence_data) sel) sequence_data ∧
  _insert_template (Some items) sel sequence_data
  = _paste_item items sel sequence_data.
Proof.
  intros Hsel. split; [|by destruct items].
  destruct items as [|x items].
  { simpl. by rewrite take_drop. }
  unfold _paste_item, insert_after_selection.
  assert (Z.to_nat (match sel with
                    | Some i => Z.of_nat i
                    | None => Z.of_nat (length sequence_data) - 1
                    end + 1)
          = from_option S (length sequence_data) sel) as ->.
  { destruct sel; simpl; lia. }
  rewrite fold_py_insert, rev_involutive; [done|].
  destruct sel as [i|]; simpl; [|done]. specialize (Hsel i eq_refl). lia.
Qed.

Lemma paste_inserts_after_selection_witness :
  _paste_item [Cycle (mkCycle 1 1 2 None);
               Phase (mkPhase "Backward" "Fixed" 5 1 "min" None None)]
              (Some 0%nat)
              [Phase (mkPhase "Forward" "Fixed" 10 60 "s" None None);
               Phase (mkPhase "Forward" "Fixed" 20 60 "s" None None)]
  = [Phase (mkPhase "Forward" "Fixed" 10 60 "s" None None)]
      ++ [Cycle (mkCycle 1 1 2 None);
          Phase (mkPhase "Backward" "Fixed" 5 1 "min" None None)]
      ++ [Phase (mkPhase "Forward" "Fixed" 20 60 "s" None None)] ∧
  _insert_template (Some [Cycle (mkCycle 1 1 2 None);
                          Phase (mkPhase "Backward" "Fixed" 5 1 "min" None None)])
                   (Some 0%nat)
                   [Phase (mkPhase "Forward" "Fixed" 10 60 "s" None None);
                    Phase (mkPhase "Forward" "Fixed" 20 60 "s" None None)]
  = _paste_item [Cycle (mkCycle 1 1 2 None);
                 Phase (mkPhase "Backward" "Fixed" 5 1 "min" None None)]
                (Some 0%nat)
                [Phase (mkPhase "Forward" "Fixed" 10 60 "s" None None);
                 Phase (mkPhase "Forward" "Fixed" 20 60 "s" None None)].
Proof.
  apply (paste_inserts_after_selection
           [Cycle (mkCycle 1 1 2 None);
            Phase (mkPhase "Backward" "Fixed" 5 1 "min" None None)]
           (Some 0%nat)
           [Phase (mkPhase "Forward" "Fixed" 10 60 "s" None None);
            Phase (mkPhase "Forward" "Fixed" 20 60 "s" None None)]).
  intros i [= <-]. simpl. lia.
Defined.

Lemma set_enabled_idemp b x : set_enabled b (set_enabled b x) = set_enabled b x.
Proof. by destruct x. Qed.

Lemma get_enabled_set_enabled b x : get_enabled (set_enabled b x) = b.
Proof. by destruct x. Qed.

Lemma set_enabled_at_lookup (indices : list nat) (b : bool) (l : list instr) :
  Forall (λ i, (i < length l)%nat) indices →
  ∃ r, set_enabled_at indices b l = Some r ∧
       length r = length l ∧
       ∀ j, r !! j
            = (if bool_decide (j ∈ indices) then set_enabled b else id) <$> l !! j.
Proof.
  revert l. induction indices as [|i rest IH]; intros l Hall.
  { exists l. split; [done|]. split; [done|]. intros j.
    rewrite bool_decide_eq_false_2 by (by intros ?%elem_of_nil).
    by destruct (l !! j). }
  inversion Hall as [|? ? Hi Hrest]; subst.
  destruct (lookup_lt_is_Some_2 l i Hi) as [x Hx].
  cbn [set_enabled_at]. rewrite Hx. cbn.
  destruct (IH (<[i := set_enabled b x]> l)) as (r & Hr & Hlen & Hlook).
  { by rewrite length_insert. }
  exists r. split; [done|]. split; [by rewrite Hlen, length_insert|].
  intros j. rewrite Hlook.
  destruct (decide (j = i)) as [->|Hne].
  - rewrite list_lookup_insert_eq by done. rewrite Hx. cbn.
    rewrite (bool_decide_eq_true_2 (i ∈ i :: rest)) by (by left).
    case_bool_decide; cbn; by rewrite ?set_enabled_idemp.
  - rewrite list_lookup_insert_ne by done.
    destruct (bool_decide (j ∈ rest)) eqn:E.
    + apply bool_decide_eq_true in E.
      by rewrite bool_decide_eq_true_2 by (by right).
    + apply bool_decide_eq_false in E.
      rewrite bool_decide_eq_false_2; [done|].
      by intros [?|?]%elem_of_cons.
Qed.

(** X14.  Toggling the selected rows gives every one of them the opposite of the
    enabled state of the first selected row, whatever its own state was,
    and changes nothing else: the other steps, the other fields and the
    length of the program stay as they are. *)
Theorem toggle_sets_selected_rows
    (indices : list nat) (sequence_data : list instr) (i0 : nat) (first : instr) :
  head indices = Some i0 →
  sequence_data !! i0 = Some first →
  Forall (λ i, (i < length sequence_data)%nat) indices →
  ∃ r,
    _toggle_item_enabled indices sequence_data = Some r ∧
    length r = length sequence_data ∧
    ∀ j x,
      sequence_data !! j = Some x →
      r !! j = Some (if bool_decide (j ∈ indices)
                     then set_enabled (negb (get_enabled first)) x else x) ∧
      (j ∈ indices →
       get_enabled <$> r !! j = Some (negb (get_enabled first))).
Proof.
  intros Hhd Hfirst Hall.
  destruct indices as [|i rest]; [done|]. injection Hhd as ->.
  unfold _toggle_item_enabled. rewrite Hfirst. cbn [mbind option_bind].
  destruct (set_enabled_at_lookup (i0 :: rest) (negb (get_enabled first))
              sequence_data Hall) as (r & Hr & Hlen & Hlook).
  exists r. split; [done|]. split; [done|].
  intros j x Hj. rewrite Hlook, Hj. cbn. split.
  - by case_bool_decide.
  - intros Hin. rewrite bool_decide_eq_true_2 by done.
    by rewrite get_enabled_set_enabled.
Qed.

Lemma toggle_sets_selected_rows_witness :
  ∃ r,
    _toggle_item_enabled
      [1%nat; 0%nat]
      [Phase (mkPhase "Forward" "Fixed" 10 60 "s" None None);
       Cycle (mkCycle 1 1 2 (Some false))] = Some r ∧
    length r = 2%nat ∧
    ∀ j x,
      [Phase (mkPhase "Forward" "Fixed" 10 60 "s" None None);
       Cycle (mkCycle 1 1 2 (Some false))] !! j = Some x →
      r !! j = Some (if bool_decide (j ∈ [1%nat; 0%nat])
                     then set_enabled (negb (get_enabled
                                               (Cycle (mkCycle 1 1 2 (Some false))))) x
                     else x) ∧
      (j ∈ [1%nat; 0%nat] →
       get_enabled <$> r !! j
       = Some (negb (get_enabled (Cycle (mkCycle 1 1 2 (Some false)))))).
Proof.
  apply (toggle_sets_selected_rows
           [1%nat; 0%nat]
           [Phase (mkPhase "Forward" "Fixed" 10 60 "s" None None);
            Cycle (mkCycle 1 1 2 (Some false))] 1%nat
           (Cycle (mkCycle 1 1 2 (Some false)))).
  - reflexivity.
  - reflexivity.
  - repeat (apply Forall_cons_2; [simpl; lia|]). apply Forall_nil_2.
Defined.

Lemma py_insert_Permutation {A : Type} (j : nat) (x : A) (l : list A) :
  py_insert j x l ≡ₚ x :: l.
Proof.
  unfold py_insert. rewrite <- Permutation_middle. by rewrite take_drop.
Qed.

Lemma pop_insert_all_Permutation {A : Type} (shift : nat → nat)
    (indices : list nat) (l r : list A) :
  pop_insert_all shift indices l = Some r → r ≡ₚ l.
Proof.
  revert l. induction indices as [|i rest IH]; intros l H; simpl in H.
  { by simplify_eq. }
  unfold pop_insert in H.
  destruct (l !! i) as [x|] eqn:Hx; [|done]. cbn in H.
  apply IH in H. rewrite H, py_insert_Permutation.
  symmetry. by apply delete_Permutation.
Qed.

(** X15.  Moving the selected rows up or down, when it does not fail, only
    rearranges the program: no step is lost, doubled or changed. *)
Theorem move_rearranges_only
    (direction : Z) (sel : list nat) (sequence_data r : list instr) :
  _move_selected_item direction sel sequence_data = Some r →
  r ≡ₚ sequence_data.
Proof.
  unfold _move_selected_item. intros H.
  destruct sel as [|i sel]; [by injection H as <-|].
  destruct (direction =? -1).
  - destruct (merge_sort le (i :: sel)) as [|[|i0] indices];
      [by eapply pop_insert_all_Permutation|by injection H as <-|].
    by eapply pop_insert_all_Permutation.
  - destruct (merge_sort (flip le) (i :: sel)) as [|i0 indices];
      [by injection H as <-|].
    destruct (_ <=? _); [by injection H as <-|].
    by eapply pop_insert_all_Permutation.
Qed.

Lemma move_rearranges_only_witness :
  [Phase (mkPhase "Forward" "Fixed" 20 60 "s" None None);
   Cycle (mkCycle 1 1 2 None);
   Phase (mkPhase "Forward" "Fixed" 10 60 "s" None None)]
  ≡ₚ [Phase (mkPhase "Forward" "Fixed" 10 60 "s" None None);
      Phase (mkPhase "Forward" "Fixed" 20 60 "s" None None);
      Cycle (mkCycle 1 1 2 None)].
Proof.
  apply (move_rearranges_only (-1) [2%nat; 1%nat]
           [Phase (mkPhase "Forward" "Fixed" 10 60 "s" None None);
            Phase (mkPhase "Forward" "Fixed" 20 60 "s" None None);
            Cycle (mkCycle 1 1 2 None)]).
  vm_compute. reflexivity.
Defined.

Lemma delete_past_prefix {A : Type} (l1 l2 : list A) (k : nat) :
  delete (length l1 + k)%nat (l1 ++ l2) = l1 ++ delete k l2.
Proof. induction l1 as [|x l1 IH]; [done|]. simpl. by rewrite IH. Qed.

(** X16.  Moving one row up swaps it with the row above, and moving the upper of
    two rows down gives the same swap; so moving a row up and then down
    again restores the program.  The references of the Cycles are not
    adjusted. *)
Theorem move_single_row_swaps
    (l1 l2 : list instr) (a b : instr) :
  _move_selected_item (-1) [S (length l1)] (l1 ++ a :: b :: l2)
  = Some (l1 ++ b :: a :: l2) ∧
  _move_selected_item 1 [length l1] (l1 ++ a :: b :: l2)
  = Some (l1 ++ b :: a :: l2) ∧
  (_move_selected_item (-1) [S (length l1)] (l1 ++ a :: b :: l2)
   ≫= _move_selected_item 1 [length l1])
  = Some (l1 ++ a :: b :: l2).
Proof.
  assert (∀ x y, pop_insert (S (length l1)) (length l1) (l1 ++ x :: y :: l2)
                 = Some (l1 ++ y :: x :: l2)) as Hup.
  { intros x y. unfold pop_insert, py_insert.
    rewrite (lookup_app_r l1) by lia.
    replace (S (length l1) - length l1)%nat with 1%nat by lia. cbn.
    replace (S (length l1)) with (length l1 + 1)%nat by lia.
    rewrite (delete_past_prefix l1 (x :: y :: l2) 1). cbn.
    by rewrite take_app_length, drop_app_length. }
  assert (∀ x y, pop_insert (length l1) (length l1 + 1) (l1 ++ x :: y :: l2)
                 = Some (l1 ++ y :: x :: l2)) as Hdown.
  { intros x y. unfold pop_insert, py_insert.
    rewrite list_lookup_middle by done. cbn.
    replace (delete (length l1) (l1 ++ x :: y :: l2))
      with (delete (length l1 + 0)%nat (l1 ++ x :: y :: l2))
      by (by rewrite Nat.add_0_r).
    rewrite (delete_past_prefix l1 (x :: y :: l2) 0). cbn.
    rewrite take_app_add, drop_app_add. cbn. by rewrite <- app_assoc. }
  assert (∀ x y, _move_selected_item (-1) [S (length l1)] (l1 ++ x :: y :: l2)
                 = Some (l1 ++ y :: x :: l2)) as Hmu.
  { intros x y. unfold _move_selected_item.
    change (-1 =? -1) with true. cbv iota.
    change (merge_sort le [S (length l1)]) with [S (length l1)].
    cbn [pop_insert_all]. rewrite Nat.sub_1_r. cbn [Nat.pred].
    by rewrite Hup. }
  assert (∀ x y, _move_selected_item 1 [length l1] (l1 ++ x :: y :: l2)
                 = Some (l1 ++ y :: x :: l2)) as Hmd.
  { intros x y. unfold _move_selected_item.
    change (1 =? -1) with false. cbv iota.
    change (merge_sort (flip le) [length l1]) with [length l1].
    cbn [pop_insert_all]. rewrite Hdown.
    destruct (_ <=? _) eqn:Hle; [|done].
    apply Z.leb_le in Hle. rewrite length_app in Hle. simpl in Hle. lia. }
  split; [apply Hmu|]. split; [apply Hmd|].
  rewrite Hmu. cbn. apply Hmd.
Qed.

(** ** Removing the selected rows *)

Lemma unselected_from_all {A : Type} (k : nat) (sel : list nat) (l : list A) :
  (∀ j, j ∈ sel → (j < k)%nat) → unselected_from k sel l = l.
Proof.
  revert k. induction l as [|x l IH]; intros k Hlt; [done|]. simpl.
  rewrite bool_decide_eq_false_2 by (intros Hk; apply Hlt in Hk; lia).
  rewrite IH; [done|]. intros j Hj. apply Hlt in Hj. lia.
Qed.

Lemma unselected_from_ext {A : Type} (k : nat) (sel sel' : list nat) (l : list A) :
  (∀ j, j ∈ sel ↔ j ∈ sel') →
  unselected_from k sel l = unselected_from k sel' l.
Proof.
  intros Hiff. revert k. induction l as [|x l IH]; intros k; [done|]. simpl.
  rewrite (bool_decide_ext _ _ (Hiff k)). by rewrite IH.
Qed.

Lemma unselected_from_delete {A : Type} (k i : nat) (sel : list nat) (l : list A) :
  (∀ j, j ∈ sel → (j < k + i)%nat) →
  (i < length l)%nat →
  unselected_from k sel (delete i l)
  = unselected_from k ((k + i)%nat :: sel) l.
Proof.
  revert k i. induction l as [|x l IH]; intros k i Hlt Hi; [simpl in Hi; lia|].
  destruct i as [|i]; simpl.
  - rewrite Nat.add_0_r in *.
    rewrite (bool_decide_eq_true_2 (k ∈ k :: sel)) by (by left).
    rewrite unselected_from_all by done.
    rewrite unselected_from_all; [done|].
    intros j [->|Hj]%elem_of_cons; [lia|]. apply Hlt in Hj. lia.
  - rewrite (bool_decide_ext (k ∈ (k + S i)%nat :: sel) (k ∈ sel)).
    2:{ rewrite elem_of_cons. split; [intros [?|?]; [lia|done]|by right]. }
    rewrite (IH (S k) i).
    + by replace (S k + i)%nat with (k + S i)%nat by lia.
    + intros j Hj. apply Hlt in Hj. lia.
    + simpl in Hi. lia.
Qed.

Lemma py_del_all_descending {A : Type} (indices : list nat) (l : list A) :
  StronglySorted (flip le) indices →
  NoDup indices →
  Forall (λ i, (i < length l)%nat) indices →
  py_del_all indices l = Some (unselected_from 0 indices l) ∧
  length (unselected_from 0 indices l) = (length l - length indices)%nat.
Proof.
  revert l. induction indices as [|i rest IH]; intros l Hsorted Hnd Hall.
  { simpl. rewrite unselected_from_all by (by intros j ?%elem_of_nil).
    split; [done|lia]. }
  apply StronglySorted_inv in Hsorted as [Hsorted Hge].
  apply NoDup_cons in Hnd as [Hni Hnd].
  inversion Hall as [|? ? Hi Hrest]; subst.
  assert (∀ j, j ∈ rest → (j < i)%nat) as Hlt.
  { intros j Hj. rewrite Forall_forall in Hge. specialize (Hge j Hj).
    unfold flip in Hge. assert (j ≠ i) by (by intros ->). lia. }
  assert (is_Some (l !! i)) as [x Hx] by (by apply lookup_lt_is_Some_2).
  cbn [py_del_all]. unfold py_del. rewrite Hx. cbn.
  destruct (IH (delete i l)) as [Hdel Hlen]; [done|done|..].
  { apply Forall_forall. intros j Hj. apply Hlt in Hj as Hji.
    rewrite length_delete by eauto. lia. }
  rewrite (unselected_from_delete 0 i) in Hdel, Hlen
    by (done || intros j Hj; by apply Hlt).
  rewrite length_delete in Hlen by eauto.
  change (0 + i)%nat with i in Hdel, Hlen.
  split; [done|]. rewrite Hlen. simpl. lia.
Qed.

(** X17.  Removing the selected rows deletes exactly the steps at the selected
    positions, once each, and keeps the others in their order. *)
Theorem remove_deletes_selected_rows
    (sel : list nat) (sequence_data : list instr) :
  NoDup sel →
  Forall (λ i, (i < length sequence_data)%nat) sel →
  _remove_item sel sequence_data = Some (unselected_from 0 sel sequence_data) ∧
  length (unselected_from 0 sel sequence_data)
  = (length sequence_data - length sel)%nat.
Proof.
  intros Hnd Hall. unfold _remove_item.
  pose proof (merge_sort_Permutation (flip le) sel) as Hperm.
  assert (Transitive (flip le)) by (intros x y z; unfold flip; lia).
  assert (Total (flip le)) by (intros x y; unfold flip; lia).
  destruct (py_del_all_descending (merge_sort (flip le) sel) sequence_data)
    as [Hdel Hlen].
  - by apply StronglySorted_merge_sort.
  - by rewrite Hperm.
  - by rewrite Hperm.
  - rewrite (unselected_from_ext 0 (merge_sort (flip le) sel) sel) in Hdel, Hlen
      by (intros j; by rewrite Hperm).
    rewrite Hperm in Hlen. done.
Qed.

Lemma remove_deletes_selected_rows_witness :
  _remove_item [0%nat; 2%nat]
               [Phase (mkPhase "Forward" "Fixed" 10 60 "s" None None);
                Phase (mkPhase "Forward" "Fixed" 20 60 "s" None None);
                Cycle (mkCycle 1 2 2 None)]
  = Some [Phase (mkPhase "Forward" "Fixed" 20 60 "s" None None)] ∧
  length [Phase (mkPhase "Forward" "Fixed" 20 60 "s" None None)] = 1%nat.
Proof.
  apply (remove_deletes_selected_rows
           [0%nat; 2%nat]
           [Phase (mkPhase "Forward" "Fixed" 10 60 "s" None None);
            Phase (mkPhase "Forward" "Fixed" 20 60 "s" None None);
            Cycle (mkCycle 1 2 2 None)]).
  - apply NoDup_cons_2; [|apply NoDup_singleton].
    intros H%list_elem_of_singleton. discriminate.
  - repeat (apply Forall_cons_2; [simpl; lia|]). apply Forall_nil_2.
Defined.

(** ** The list of recent files *)

Lemma py_remove_elem_of x y l : y ∈ py_remove x l → y ∈ l.
Proof.
  induction l as [|z l IH]; simpl; [done|].
  destruct (decide (x = z)); [by right|].
  intros [->|H]%elem_of_cons; [by left|right; auto].
Qed.

Lemma py_remove_NoDup x l : NoDup l → NoDup (py_remove x l) ∧ x ∉ py_remove x l.
Proof.
  induction 1 as [|z l Hz Hnd [IH1 IH2]]; simpl.
  { split; [constructor|by intros ?%elem_of_nil]. }
  destruct (decide (x = z)) as [->|Hne]; [done|]. split.
  - apply NoDup_cons_2; [|done]. intros H%py_remove_elem_of. done.
  - intros [?|?]%elem_of_cons; done.
Qed.

(** X18.  After a file is added to the recent files it stands first; the list
    has at most 10 entries, all of them the file or entries that were there
    before; a list without doubles stays without doubles; and adding the
    same file once more changes nothing. *)
Theorem recent_files_most_recent_first
    (filepath : string) (recent_files : list string) :
  head (_add_to_recent_files filepath recent_files) = Some filepath ∧
  (length (_add_to_recent_files filepath recent_files) ≤ 10)%nat ∧
  (∀ x, x ∈ _add_to_recent_files filepath recent_files →
        x = filepath ∨ x ∈ recent_files) ∧
  (NoDup recent_files → NoDup (_add_to_recent_files filepath recent_files)) ∧
  _add_to_recent_files filepath (_add_to_recent_files filepath recent_files)
  = _add_to_recent_files filepath recent_files.
Proof.
  unfold _add_to_recent_files, py_insert.
  set (l := if bool_decide (filepath ∈ recent_files)
            then py_remove filepath recent_files else recent_files).
  change (take 10 (take 0 l ++ filepath :: drop 0 l))
    with (filepath :: take 9 l).
  split; [done|]. split; [simpl; rewrite length_take; lia|].
  assert (∀ x, x ∈ l → x ∈ recent_files) as Hsub.
  { intros x. subst l. case_bool_decide; [apply py_remove_elem_of|done]. }
  split; [|split].
  - intros x [->|Hx]%elem_of_cons; [by left|right].
    apply Hsub. by apply (subseteq_take 9 l).
  - intros Hnd.
    assert (NoDup l ∧ filepath ∉ l) as [Hl Hni].
    { subst l. case_bool_decide; [by apply py_remove_NoDup|done]. }
    apply NoDup_cons_2.
    + intros Hin. apply Hni. by apply (subseteq_take 9 l).
    + eapply sublist_NoDup; [done|]. apply sublist_take.
  - rewrite bool_decide_eq_true_2 by (by left).
    cbn [py_remove]. rewrite decide_True by done.
    change (take 10 (take 0 (take 9 l) ++ filepath :: drop 0 (take 9 l)))
      with (filepath :: take 9 (take 9 l)).
    by rewrite take_take.
Qed.

Lemma recent_files_most_recent_first_witness :
  head (_add_to_recent_files "b.json" ["a.json"; "b.json"; "c.json"])
  = Some "b.json" ∧
  (length (_add_to_recent_files "b.json" ["a.json"; "b.json"; "c.json"]) ≤ 10)%nat ∧
  (∀ x, x ∈ _add_to_recent_files "b.json" ["a.json"; "b.json"; "c.json"] →
        x = "b.json" ∨ x ∈ ["a.json"; "b.json"; "c.json"]) ∧
  (NoDup ["a.json"; "b.json"; "c.json"] →
   NoDup (_add_to_recent_files "b.json" ["a.json"; "b.json"; "c.json"])) ∧
  _add_to_recent_files "b.json"
    (_add_to_recent_files "b.json" ["a.json"; "b.json"; "c.json"])
  = _add_to_recent_files "b.json" ["a.json"; "b.json"; "c.json"].
Proof.
  apply (recent_files_most_recent_first "b.json" ["a.json"; "b.json"; "c.json"]).
Defined.

(** * The worker loop of the controller *)

Lemma disconnect_clears_ser io c : ctl_ser (_disconnect io c) = None.
Proof. unfold _disconnect. by repeat case_match. Qed.

(** X19.  Without a connect command, a worker that holds no port never writes a
    byte: every send command is answered with the same error message, a
    disconnect is silent, no exception leaves the thread, and the commands
    after a [stop_thread] are not looked at. *)
Theorem run_without_connection
    (commands : list command) (c : controller) :
  ctl_ser c = None →
  Forall (λ cmd, is_connect cmd = false) commands →
  ctl_ser (run commands c).1 = None ∧
  ctl_wire (run commands c).1 = ctl_wire c ∧
  (∀ f, (run commands c).2 ≠ WorkerDied f) ∧
  ∃ k,
    ctl_results (run commands c).1
    = ctl_results c ++ replicate k not_connected_msg ∧
    (k ≤ length (filter (λ cmd, is_send cmd = true) commands))%nat ∧
    ((run commands c).2 = WorkerPolling →
     k = length (filter (λ cmd, is_send cmd = true) commands)).
Proof.
  intros Hser Hall. revert c Hser.
  induction Hall as [|cmd commands Hcmd _ IH]; intros c Hser.
  { simpl. repeat split; try done. exists 0%nat. simpl.
    by rewrite app_nil_r. }
  destruct cmd as [cfg env|io|txt ok|io|]; [done|..]; cbn [run].
  - destruct (IH (_disconnect io c) (disconnect_clears_ser io c))
      as (H1 & H2 & H3 & k & H4 & H5 & H6).
    assert (_disconnect io c = c) as Hc.
    { unfold _disconnect. rewrite Hser. by destruct c; simpl in *; subst. }
    rewrite Hc in *. rewrite filter_cons_False by done.
    repeat split; try done. by exists k.
  - unfold _send_command. rewrite Hser.
    set (c' := mkController None (ctl_results c ++ [not_connected_msg]) (ctl_wire c)).
    destruct (IH c' eq_refl) as (H1 & H2 & H3 & k & H4 & H5 & H6).
    rewrite filter_cons_True by done.
    repeat split; try done. exists (S k).
    split; [|split; [simpl; lia|]].
    + rewrite H4. simpl. by rewrite <- app_assoc.
    + intros Hp. simpl. by rewrite (H6 Hp).
  - simpl. rewrite disconnect_clears_ser.
    assert (_disconnect io c = c) as Hc.
    { unfold _disconnect. rewrite Hser. by destruct c; simpl in *; subst. }
    rewrite Hc. repeat split; try done. exists 0%nat.
    split; [by rewrite app_nil_r|]. split; [lia|done].
  - destruct (IH c Hser) as (H1 & H2 & H3 & k & H4 & H5 & H6).
    rewrite filter_cons_False by done.
    repeat split; try done. by exists k.
Qed.

Lemma run_without_connection_witness :
  ctl_ser (run [CmdSend "K>" true; CmdDisconnect DiscOk; CmdSend "R100" true]
               (mkController None [] [])).1 = None ∧
  ctl_wire (run [CmdSend "K>" true; CmdDisconnect DiscOk; CmdSend "R100" true]
                (mkController None [] [])).1 = [] ∧
  (∀ f, (run [CmdSend "K>" true; CmdDisconnect DiscOk; CmdSend "R100" true]
             (mkController None [] [])).2 ≠ WorkerDied f) ∧
  ∃ k,
    ctl_results (run [CmdSend "K>" true; CmdDisconnect DiscOk; CmdSend "R100" true]
                     (mkController None [] [])).1
    = [] ++ replicate k not_connected_msg ∧
    (k ≤ length (filter (λ cmd, is_send cmd = true)
                        [CmdSend "K>" true; CmdDisconnect DiscOk;
                         CmdSend "R100" true]))%nat ∧
    ((run [CmdSend "K>" true; CmdDisconnect DiscOk; CmdSend "R100" true]
          (mkController None [] [])).2 = WorkerPolling →
     k = length (filter (λ cmd, is_send cmd = true)
                        [CmdSend "K>" true; CmdDisconnect DiscOk;
                         CmdSend "R100" true])).
Proof.
  apply (run_without_connection
           [CmdSend "K>" true; CmdDisconnect DiscOk; CmdSend "R100" true]
           (mkController None [] [])).
  - reflexivity.
  - repeat (apply Forall_cons_2; [reflexivity|]). apply Forall_nil_2.
Defined.

(** X20.  [stop_thread] is the last command the worker processes: what follows it
    in the queue has no effect, and a worker that stopped this way holds no
    port. *)
Theorem run_stop_thread_is_last
    (before after : list command) (io : disconnect_io) (c : controller) :
  run (before ++ CmdStopThread io :: after) c
  = run (before ++ [CmdStopThread io]) c ∧
  ((run (before ++ CmdStopThread io :: after) c).2 = WorkerStopped →
   ctl_ser (run (before ++ CmdStopThread io :: after) c).1 = None).
Proof.
  assert (∀ commands c',
            (run commands c').2 = WorkerStopped →
            ctl_ser (run commands c').1 = None) as Hstopped.
  { induction commands as [|cmd commands IH]; intros c'; [done|].
    destruct cmd; cbn [run]; try apply IH.
    - destruct (escaped _); [done|apply IH].
    - destruct (_send_command _ _ _) as [c'' [f|]]; [done|apply IH].
    - intros _. apply disconnect_clears_ser. }
  split; [|apply Hstopped].
  revert c. induction before as [|cmd before IH]; intros c; [done|].
  destruct cmd; cbn [app run]; try apply IH.
  - destruct (escaped _); [done|apply IH].
  - destruct (_send_command _ _ _) as [c'' [f|]]; [done|apply IH].
  - done.
Qed.

Lemma run_stop_thread_is_last_witness :
  run ([CmdSend "K>" true] ++ CmdStopThread DiscOk :: [CmdSend "KH" true])
      (mkController (Some (mkPort true [255; 158])) [] [255; 158])
  = run ([CmdSend "K>" true] ++ [CmdStopThread DiscOk])
        (mkController (Some (mkPort true [255; 158])) [] [255; 158]) ∧
  ((run ([CmdSend "K>" true] ++ CmdStopThread DiscOk :: [CmdSend "KH" true])
        (mkController (Some (mkPort true [255; 158])) [] [255; 158])).2
   = WorkerStopped →
   ctl_ser (run ([CmdSend "K>" true] ++ CmdStopThread DiscOk :: [CmdSend "KH" true])
                (mkController (Some (mkPort true [255; 158])) [] [255; 158])).1
   = None).
Proof.
  apply (run_stop_thread_is_last
           [CmdSend "K>" true] [CmdSend "KH" true] DiscOk
           (mkController (Some (mkPort true [255; 158])) [] [255; 158])).
Defined.

Lemma run_sends (texts : list string) (payloads : list (list Z))
    (w : list Z) (c : controller) (tail : list command) :
  ctl_ser c = Some (mkPort true w) →
  Forall2 (λ t bs, encode_ascii t = Some bs) texts payloads →
  run (map (λ t, CmdSend t true) texts ++ tail) c
  = run tail
        (mkController (Some (mkPort true (w ++ concat (map frame payloads))))
                      (ctl_results c)
                      (ctl_wire c ++ concat (map frame payloads))).
Proof.
  intros Hser Hall. revert w c Hser.
  induction Hall as [|t bs texts payloads Ht _ IH]; intros w c Hser.
  { simpl. rewrite !app_nil_r. by destruct c; simpl in *; subst. }
  cbn [map app run]. unfold _send_command. rewrite Hser. cbn [is_open].
  rewrite Ht. cbn [written].
  rewrite (IH (w ++ frame bs)) by done.
  cbn [ctl_results ctl_wire map concat]. by rewrite <- !app_assoc.
Qed.

(** X21.  A whole session: a connect command with a unit id that fits in a byte,
    on a port that opens, takes the writes and echoes the connect byte, then
    any number of send commands with ASCII text, then [stop_thread].  The
    bytes written are the reset byte, the connect byte, each text between a
    line feed and a carriage return, in the order of the commands, and the
    reset byte again; the results are [connected] and [disconnected]; the
    port is given up. *)
Theorem run_session_bytes
    (config : connect_config) (texts : list string) (payloads : list (list Z))
    (c : controller) :
  0 ≤ cfg_unit_id config + 128 < 256 →
  Forall2 (λ t bs, encode_ascii t = Some bs) texts payloads →
  ∃ msg,
    run (CmdConnect config
           (mkEnv true true true (Some (Some (cfg_unit_id config + 128))))
           :: map (λ t, CmdSend t true) texts ++ [CmdStopThread DiscOk]) c
    = (mkController None
         (ctl_results c ++ [("connected", msg); ("disconnected", "Serial port closed.")])
         (ctl_wire c ++ [255; cfg_unit_id config + 128]
            ++ concat (map frame payloads) ++ [255]),
       WorkerStopped).
Proof.
  intros Hbyte Hall. cbn [run]. unfold _connect.
  cbn [env_open env_write_reset env_write_connect env_read negb].
  replace ((0 <=? cfg_unit_id config + 128) && (cfg_unit_id config + 128 <? 256))
    with true
    by (symmetry; apply andb_true_iff; rewrite Z.leb_le, Z.ltb_lt; lia).
  cbn [negb option_list]. rewrite bool_decide_eq_true_2 by done.
  cbn [escaped ser results opened from_option written].
  eexists.
  rewrite (run_sends texts payloads [255; cfg_unit_id config + 128]) by done.
  cbn [run _disconnect ctl_ser ctl_results ctl_wire is_open].
  unfold _disconnect. cbn [ctl_ser ctl_results ctl_wire is_open].
  by rewrite <- !app_assoc.
Qed.

Lemma run_session_bytes_witness :
  ∃ msg,
    run (CmdConnect (mkConfig "COM3" 19200 30)
           (mkEnv true true true (Some (Some (30 + 128))))
           :: map (λ t, CmdSend t true) ["K>"; "R100"] ++ [CmdStopThread DiscOk])
        (mkController None [] [])
    = (mkController None
         ([] ++ [("connected", msg); ("disconnected", "Serial port closed.")])
         ([] ++ [255; 30 + 128]
            ++ concat (map frame [[75; 62]; [82; 49; 48; 48]]) ++ [255]),
       WorkerStopped).
Proof.
  apply (run_session_bytes (mkConfig "COM3" 19200 30) ["K>"; "R100"]
           [[75; 62]; [82; 49; 48; 48]] (mkController None [] [])).
  - simpl. lia.
  - repeat (apply Forall2_cons_2; [reflexivity|]). apply Forall2_nil_2.
Defined.

(** * The sequence engine and the flattened plan *)

Lemma py_index_nat {A} (l : list A) (k : nat) : py_index l (Z.of_nat k) = l !! k.
Proof.
  unfold py_index. rewrite (proj2 (Z.leb_le 0 (Z.of_nat k))) by lia.
  by rewrite Nat2Z.id.
Qed.

Lemma py_sum_snoc (l : list Q) (x : Q) : py_sum (l ++ [x]) = (py_sum l + x)%Q.
Proof. unfold py_sum. by rewrite fold_left_app. Qed.

Lemma walk_flat_prefix sequence_data include_disabled only_disabled s tr s' :
  walk sequence_data include_disabled only_disabled s tr s' →
  ∃ k, flat_list s' = flat_list s ++ k.
Proof.
  induction 1 as [s|s i b s1 tr s2 Hi Hb Hne _ [k IH]].
  { exists []. by rewrite app_nil_r. }
  assert (∃ k1, flat_list s1 = flat_list s ++ k1) as [k1 Hk1].
  { unfold loop_body in Hb.
    repeat case_match; simplify_eq; cbn [flat_list];
      first [by exists []; rewrite app_nil_r | by eexists]. }
  exists (k1 ++ k). by rewrite IH, Hk1, <- app_assoc.
Qed.

Section EngineFacts.
Variable sequence_data : list instr.
Variable ticks_fuel : nat.
Local Abbreviation steps := (walk sequence_data false false).
Local Abbreviation len := (Z.of_nat (length sequence_data)).
Local Abbreviation wloop := (worker_loop sequence_data ticks_fuel).
Local Abbreviation skip := (skip_disabled sequence_data).

Lemma skip_disabled_enabled (k : nat) (i : instr) :
  sequence_data !! k = Some i → get_enabled i = true →
  skip (Z.to_nat (len - Z.of_nat k)) (Z.of_nat k) = inr (Z.of_nat k).
Proof.
  intros Hi Hen. pose proof (lookup_lt_Some _ _ _ Hi) as Hlt.
  replace (Z.to_nat (len - Z.of_nat k))
    with (S (Z.to_nat (len - (Z.of_nat k + 1)))) by lia.
  cbn [skip_disabled].
  rewrite (proj2 (Z.ltb_lt _ _)) by lia.
  by rewrite py_index_nat, Hi, Hen.
Qed.

Lemma skip_disabled_step (k : nat) (i : instr) :
  sequence_data !! k = Some i → get_enabled i = false →
  skip (Z.to_nat (len - Z.of_nat k)) (Z.of_nat k)
  = skip (Z.to_nat (len - (Z.of_nat k + 1))) (Z.of_nat k + 1).
Proof.
  intros Hi Hen. pose proof (lookup_lt_Some _ _ _ Hi) as Hlt.
  replace (Z.to_nat (len - Z.of_nat k))
    with (S (Z.to_nat (len - (Z.of_nat k + 1)))) by lia.
  cbn [skip_disabled].
  rewrite (proj2 (Z.ltb_lt _ _)) by lia.
  by rewrite py_index_nat, Hi, Hen.
Qed.

Lemma worker_loop_skip (n k : nat) (i : instr) (e : engine_state) :
  e_pc e = Z.of_nat k →
  sequence_data !! k = Some i → get_enabled i = false →
  wloop n e
  = wloop n (mkEngine (Z.of_nat k + 1) (e_counters e) (current_rpm e)
                      (cumulative_time e) (e_sent e) (executed e)).
Proof.
  intros Hpc Hi Hen. pose proof (lookup_lt_Some _ _ _ Hi) as Hlt.
  destruct n as [|n]; [done|].
  cbn [worker_loop e_pc e_counters current_rpm cumulative_time e_sent executed].
  rewrite Hpc. rewrite (proj2 (Z.ltb_lt (Z.of_nat k) len)) by lia.
  rewrite (skip_disabled_step k i) by done.
  destruct (Z.of_nat k + 1 <? len) eqn:Hnext; [done|].
  apply Z.ltb_ge in Hnext.
  replace (Z.to_nat (len - (Z.of_nat k + 1))) with 0%nat by lia.
  cbn [skip_disabled].
  by rewrite (proj2 (Z.leb_le len (Z.of_nat k + 1))) by lia.
Qed.

Lemma worker_loop_at_end (n : nat) (e : engine_state) (s : loop_state) :
  engine_matches e s → sequence_data !! pc s = None →
  wloop (S n) e = Some (e, SeqFinished).
Proof.
  intros (Hpc & _) Hend. apply lookup_ge_None in Hend.
  cbn [worker_loop]. by rewrite Hpc, (proj2 (Z.ltb_ge _ _)) by lia.
Qed.

(** One turn of the engine on an enabled Cycle does to the position and
    the counters what the flattener does, up to the check of the target. *)
Lemma worker_loop_cycle (n : nat) (e : engine_state) (s : loop_state) (c : cycle) :
  engine_matches e s →
  sequence_data !! pc s = Some (Cycle c) → get_enabled (Cycle c) = true →
  let counters :=
    match cycle_counters s !! pc s with
    | Some _ => cycle_counters s
    | None => <[pc s := repeats c]> (cycle_counters s)
    end in
  let k := default 0 (counters !! pc s) in
  wloop (S n) e
  = if 0 <? k then
      wloop n (mkEngine (start_phase c - 1)
                        (kmap Z.of_nat (<[pc s := k - 1]> counters))
                        (current_rpm e) (cumulative_time e) (e_sent e) (executed e))
    else
      wloop n (mkEngine (Z.of_nat (pc s) + 1)
                        (kmap Z.of_nat (delete (pc s) counters))
                        (current_rpm e) (cumulative_time e) (e_sent e) (executed e)).
Proof.
  intros (Hpc & Hcnt & _) Hi Hen counters k.
  pose proof (lookup_lt_Some _ _ _ Hi) as Hlt.
  cbn [worker_loop]. rewrite Hpc.
  rewrite (proj2 (Z.ltb_lt _ _)) by lia.
  rewrite (skip_disabled_enabled (pc s) (Cycle c)) by done.
  rewrite (proj2 (Z.leb_gt _ _)) by lia.
  rewrite py_index_nat, Hi, Hcnt.
  rewrite (lookup_kmap Z.of_nat).
  assert (match cycle_counters s !! pc s with
          | Some _ => kmap Z.of_nat (cycle_counters s)
          | None => <[Z.of_nat (pc s) := repeats c]> (kmap Z.of_nat (cycle_counters s))
          end = kmap Z.of_nat counters) as ->.
  { subst counters. destruct (cycle_counters s !! pc s); [done|].
    by rewrite (kmap_insert Z.of_nat). }
  rewrite (lookup_kmap Z.of_nat). fold k.
  by rewrite (kmap_insert Z.of_nat), (kmap_delete Z.of_nat).
Qed.

(** One turn of the engine on an enabled Phase whose tick loop runs to its
    end. *)
Lemma worker_loop_phase (n : nat) (e : engine_state) (s : loop_state) (p : phase) :
  engine_matches e s →
  sequence_data !! pc s = Some (Phase p) → get_enabled (Phase p) = true →
  mode p = "Fixed"
  ∨ (mode p = "Ramp" ∧ ¬ (default 1%Q (update_interval p) == 0)%Q) →
  (duration_s p <= elapsed_after ticks_fuel)%Q →
  let r := _execute_phase p (current_rpm e) (replicate ticks_fuel EvRun) in
  wloop (S n) e
  = wloop n (mkEngine (Z.of_nat (pc s) + 1) (e_counters e)
                      (default (current_rpm e) (t_rpm <$> last (ticks r)))
                      (cumulative_time e + duration_s p)%Q
                      (e_sent e ++ sent r) (executed e ++ [p])).
Proof.
  intros (Hpc & Hcnt & Hex & Hct) Hi Hen Hrun Hdur r.
  pose proof (lookup_lt_Some _ _ _ Hi) as Hlt.
  cbn [worker_loop]. rewrite Hpc.
  rewrite (proj2 (Z.ltb_lt _ _)) by lia.
  rewrite (skip_disabled_enabled (pc s) (Phase p)) by done.
  rewrite (proj2 (Z.leb_gt _ _)) by lia.
  rewrite py_index_nat, Hi.
  destruct (phase_loop_completes p (current_rpm e) ticks_fuel Hrun 0%nat 0%Q)
    as (Hdone & _); [by vm_compute|done|].
  subst r. cbn [_execute_phase status]. rewrite Hdone. reflexivity.
Qed.

(** The engine follows the walk of the flattener: after at most as many
    turns as the walk has, it stands where the walk stands. *)
Lemma worker_follows_walk s tr u :
  steps s tr u →
  Forall (λ p, (mode p = "Fixed"
                ∨ (mode p = "Ramp" ∧ ¬ (default 1%Q (update_interval p) == 0)%Q))
               ∧ (duration_s p <= elapsed_after ticks_fuel)%Q) (flat_list u) →
  ∀ e : engine_state,
    engine_matches e s →
    ∃ e' k, (k ≤ length tr)%nat ∧ engine_matches e' u ∧
            ∀ m, wloop (k + m) e = wloop m e'.
Proof.
  induction 1 as [s|s i b s1 tr s2 Hi Hb Hne Hw IH]; intros Hok e He.
  { exists e, 0%nat. split; [simpl; lia|]. by split. }
  assert (∃ e1 j, (j ≤ 1)%nat ∧ engine_matches e1 s1 ∧
                  ∀ m, wloop (j + m) e = wloop m e1) as (e1 & j & Hj & He1 & Hstep).
  { pose proof He as (Hpc & Hcnt & Hex & Hct).
    unfold loop_body in Hb. cbn [andb negb] in Hb.
    destruct (get_enabled i) eqn:Hen; cbn [negb] in Hb.
    2:{ simplify_eq. eexists _, 0%nat. split; [lia|]. split.
        2:{ intros m. apply (worker_loop_skip _ (pc s) i); done. }
        unfold engine_matches.
        cbn [pc cycle_counters flat_list e_pc e_counters cumulative_time executed].
        repeat split; try done. lia. }
    destruct i as [p|c].
    - simplify_eq.
      destruct (walk_flat_prefix _ _ _ _ _ _ Hw) as [l Hl]. cbn [flat_list] in Hl.
      assert (p ∈ flat_list s2) as Hp.
      { rewrite Hl. apply elem_of_app. left. apply elem_of_app. right.
        by apply list_elem_of_singleton. }
      destruct (proj1 (Forall_forall _ _) Hok p Hp) as [Hrun Hdur].
      eexists _, 1%nat. split; [lia|]. split.
      2:{ intros m. apply (worker_loop_phase m e s p He Hi Hen Hrun Hdur). }
      unfold engine_matches.
      cbn [pc cycle_counters flat_list e_pc e_counters cumulative_time executed].
      split; [lia|]. split; [done|]. split; [by rewrite Hex|].
      rewrite map_app. cbn [map]. by rewrite py_sum_snoc, Hct.
    - cbv beta iota zeta in Hb.
      pose proof (worker_loop_cycle) as Hcyc.
      assert (∀ m, wloop (1 + m) e = _) as Hturn
        by (intros m; apply (Hcyc m e s c He Hi Hen)).
      cbv zeta in Hturn.
      destruct (0 <? _) eqn:Hpos in Hb, Hturn.
      + destruct (_ && _) eqn:Hin in Hb; simplify_eq.
        apply andb_true_iff in Hin as [H0 H1]. apply Z.leb_le in H0.
        eexists _, 1%nat. split; [lia|]. split; [|exact Hturn].
        unfold engine_matches.
        cbn [pc cycle_counters flat_list e_pc e_counters cumulative_time executed].
        split; [lia|]. by split.
      + simplify_eq.
        eexists _, 1%nat. split; [lia|]. split; [|exact Hturn].
        unfold engine_matches.
        cbn [pc cycle_counters flat_list e_pc e_counters cumulative_time executed].
        split; [lia|]. by split. }
  destruct (IH Hok e1 He1) as (e' & k & Hk & He' & Hloop).
  exists e', (j + k)%nat. split; [simpl; lia|]. split; [done|]. intros m.
  by rewrite <- Nat.add_assoc, Hstep, Hloop.
Qed.
End EngineFacts.

Lemma elapsed_after_reaches (x : Q) : ∃ n, (x <= elapsed_after n)%Q.
Proof.
  exists (Z.to_nat (Qceiling (x * 10))).
  pose proof (Qle_ceiling (x * 10)) as Hc.
  assert (inject_Z (Qceiling (x * 10))
          <= inject_Z (Z.of_nat (Z.to_nat (Qceiling (x * 10)))))%Q as Hz.
  { rewrite <- Zle_Qle. lia. }
  unfold elapsed_after, PROGRESS_INTERVAL. lra.
Qed.

Lemma ticks_fuel_exists (flat : list phase) :
  ∃ n, ∀ m, (n ≤ m)%nat →
            Forall (λ p, duration_s p <= elapsed_after m)%Q flat.
Proof.
  induction flat as [|p flat [n IH]].
  { exists 0%nat. intros. apply Forall_nil_2. }
  destruct (elapsed_after_reaches (duration_s p)) as [n0 Hn0].
  exists (n0 `max` n)%nat. intros m Hm. apply Forall_cons_2.
  - eapply Qle_trans; [exact Hn0|]. apply elapsed_after_mono. lia.
  - apply IH. lia.
Qed.

Lemma walk_never_invalid sequence_data include_disabled only_disabled s tr s' :
  walk sequence_data include_disabled only_disabled s tr s' →
  Forall (λ x, x.2 ≠ CycleInvalid) tr.
Proof.
  induction 1; [apply Forall_nil_2|]. by apply Forall_cons_2.
Qed.

(** What a returned list says about the walk: it is the list collected by a
    walk from the initial state, which has reached the end of the program
    when nothing was logged. *)
Lemma flatten_returned_walk sequence_data include_disabled only_disabled flat lg :
  _flatten_sequence_for_plot sequence_data include_disabled only_disabled
  = Some (Returned flat, lg) →
  ∃ tr u,
    walk sequence_data include_disabled only_disabled initial_loop_state tr u ∧
    flat_list u = flat ∧
    (lg = [] → sequence_data !! pc u = None).
Proof.
  unfold _flatten_sequence_for_plot. intros Hflat.
  destruct (flatten_run _ _ _) as [[tr s]|] eqn:Hr; [|done]. simpl in Hflat.
  destruct (MAX_ITER <=? iterations s) eqn:Hmax; simplify_eq.
  apply Z.leb_gt in Hmax.
  apply flatten_loop_sound in Hr as [_ Hcase]; [|done].
  destruct Hcase as [[Hw [Hend|Hit]]|(tr0 & u & i & _ & Hw & _ & _ & Hb)].
  - by exists tr, s.
  - lia.
  - exists tr0, u. split; [done|].
    unfold loop_body in Hb.
    repeat case_match; simplify_eq; cbn [flat_list logged];
      (split; [done|]); intros Hlg; by destruct (logged u).
Qed.

(** What a trace that ends on an invalid target says about the walk. *)
Lemma flatten_invalid_walk sequence_data include_disabled only_disabled
    tr0 k s' :
  flatten_run sequence_data include_disabled only_disabled
  = Some (tr0 ++ [(k, CycleInvalid)], s') →
  ∃ u c,
    walk sequence_data include_disabled only_disabled initial_loop_state tr0 u ∧
    pc u = k ∧ sequence_data !! k = Some (Cycle c) ∧
    get_enabled (Cycle c) = true ∧
    iterations s' < MAX_ITER ∧
    flat_list s' = flat_list u ∧
    0 < default 0 (match cycle_counters u !! k with
                   | Some _ => cycle_counters u
                   | None => <[k := repeats c]> (cycle_counters u)
                   end !! k) ∧
    ¬ (0 ≤ start_phase c - 1 < Z.of_nat (length sequence_data)).
Proof.
  intros Hr.
  apply flatten_loop_sound in Hr as [_ Hcase]; [|done].
  destruct Hcase as [[Hw _]|(tr1 & u & i & Htr & Hw & Hi & Hit & Hb)].
  { apply walk_never_invalid in Hw.
    apply Forall_app in Hw as [_ Hw]. by inversion Hw. }
  apply app_inj_tail in Htr as [-> [= Hk]]. subst k.
  unfold loop_body in Hb.
  destruct i as [p|c]; [repeat case_match; simplify_eq|].
  exists u, c. split; [done|]. split; [done|]. split; [done|].
  destruct (only_disabled && _); [done|].
  destruct (negb include_disabled && _); [done|].
  destruct (get_enabled (Cycle c)) eqn:Hen; [|done].
  cbv zeta in Hb.
  destruct (0 <? _) eqn:Hpos in Hb; [|done].
  destruct (_ && _) eqn:Hin in Hb; [done|]. simplify_eq.
  cbn [iterations flat_list].
  repeat split; try done.
  - by apply Z.ltb_lt in Hpos.
  - intros [H0 H1]. apply andb_false_iff in Hin as [Hin|Hin].
    + apply Z.leb_gt in Hin. lia.
    + apply Z.ltb_ge in Hin. lia.
Qed.

Lemma walk_reaches_append sequence_data s tr s' pre p post :
  walk sequence_data false false s tr s' →
  flat_list s' = pre ++ p :: post →
  (length (flat_list s) ≤ length pre)%nat →
  ∃ tr1 u,
    walk sequence_data false false s tr1 u ∧
    flat_list u = pre ∧
    sequence_data !! pc u = Some (Phase p) ∧ get_enabled (Phase p) = true.
Proof.
  induction 1 as [s|s i b s1 tr s2 Hi Hb Hne Hw IH]; intros Hfl Hlen.
  { rewrite Hfl, length_app in Hlen. simpl in Hlen. lia. }
  destruct (decide (length (flat_list s1) ≤ length pre)%nat) as [Hle|Hgt].
  { destruct (IH Hfl Hle) as (tr1 & u & Hw1 & Hu).
    exists ((pc s, b) :: tr1), u. split; [|done]. by econstructor. }
  destruct (walk_flat_prefix _ _ _ _ _ _ Hw) as [l Hl].
  unfold loop_body in Hb. cbn [andb negb] in Hb.
  destruct (get_enabled i) eqn:Hen; cbn [negb] in Hb;
    [|simplify_eq; cbn [flat_list] in Hgt; lia].
  destruct i as [q|c].
  2:{ repeat case_match; simplify_eq; cbn [flat_list] in Hgt; lia. }
  simplify_eq. cbn [flat_list] in Hgt, Hl.
  rewrite length_app in Hgt. simpl in Hgt.
  rewrite Hfl, <- app_assoc in Hl. simpl in Hl.
  apply app_inj_1 in Hl as [Hpre [= -> _]]; [|lia].
  exists [], s. split; [constructor|]. by rewrite Hpre.
Qed.

Lemma worker_reaches (sequence_data : list instr) tr u :
  walk sequence_data false false initial_loop_state tr u →
  Forall (λ p, mode p = "Fixed"
               ∨ (mode p = "Ramp" ∧ ¬ (default 1%Q (update_interval p) == 0)%Q))
         (flat_list u) →
  ∃ n0, ∀ fuel, (n0 ≤ fuel)%nat →
    ∃ e' k, (k ≤ length tr)%nat ∧ engine_matches e' u ∧
            ∀ m, worker_loop sequence_data fuel (k + m) initial_engine_state
                 = worker_loop sequence_data fuel m e'.
Proof.
  intros Hw Hrun.
  destruct (ticks_fuel_exists (flat_list u)) as [n0 Hn0].
  exists n0. intros fuel Hfuel.
  apply (worker_follows_walk sequence_data fuel _ _ _ Hw).
  - apply Forall_and. split; [done|]. by apply Hn0.
  - by repeat split.
Qed.

(** X22.  When the plan of a program is complete (the flattener returns it and
    logs nothing) and every planned Phase has mode Fixed, or mode Ramp with
    an update interval other than zero, a run that is neither paused nor
    stopped executes exactly the planned Phases, in the planned order, ends
    by itself with the stop command [KH], and its clock ends at the total
    that [_calculate_total_duration] announces. *)
Theorem engine_follows_plan
    (sequence_data : list instr) (flat : list phase) :
  _flatten_sequence_for_plot sequence_data false false
  = Some (Returned flat, []) →
  Forall (λ p, mode p = "Fixed"
               ∨ (mode p = "Ramp" ∧ ¬ (default 1%Q (update_interval p) == 0)%Q))
         flat →
  ∃ fuel0, ∀ fuel, (fuel0 ≤ fuel)%nat →
    ∃ s, _sequence_worker sequence_data fuel = Some (s, SeqFinished) ∧
         executed s = flat ∧
         last (e_sent s) = Some "KH" ∧
         _calculate_total_duration sequence_data false
         = Some (Returned (cumulative_time s)).
Proof.
  intros Hflat Hrun.
  destruct (flatten_returned_walk _ _ _ _ _ Hflat) as (tr & u & Hw & Hfl & Hend).
  specialize (Hend eq_refl). subst flat.
  destruct (worker_reaches sequence_data tr u Hw Hrun) as [n0 Hn0].
  exists (n0 `max` S (length tr))%nat. intros fuel Hfuel.
  destruct (Hn0 fuel) as (e' & k & Hk & He' & Hloop); [lia|].
  unfold _sequence_worker.
  pose proof (Hloop (S (fuel - S k))) as Hl.
  replace (k + S (fuel - S k))%nat with fuel in Hl by lia.
  rewrite Hl, (worker_loop_at_end _ _ _ _ u He' Hend).
  cbn [mbind option_bind].
  destruct He' as (_ & _ & Hex & Hct).
  eexists. split; [done|].
  cbn [executed e_sent cumulative_time].
  split; [done|]. split; [by rewrite last_snoc|].
  unfold _calculate_total_duration. rewrite Hflat. cbn [mbind option_bind].
  by rewrite Hct.
Qed.

Lemma engine_follows_plan_witness :
  ∃ fuel0, ∀ fuel, (fuel0 ≤ fuel)%nat →
    ∃ s, _sequence_worker
           [Phase (mkPhase "Forward" "Fixed" 10 2 "s" None None);
            Phase (mkPhase "Backward" "Ramp" 5 1 "s" None (Some false));
            Cycle (mkCycle 1 1 1 None)] fuel
         = Some (s, SeqFinished) ∧
         executed s = [mkPhase "Forward" "Fixed" 10 2 "s" None None;
                       mkPhase "Forward" "Fixed" 10 2 "s" None None] ∧
         last (e_sent s) = Some "KH" ∧
         _calculate_total_duration
           [Phase (mkPhase "Forward" "Fixed" 10 2 "s" None None);
            Phase (mkPhase "Backward" "Ramp" 5 1 "s" None (Some false));
            Cycle (mkCycle 1 1 1 None)] false
         = Some (Returned (cumulative_time s)).
Proof.
  apply (engine_follows_plan
           [Phase (mkPhase "Forward" "Fixed" 10 2 "s" None None);
            Phase (mkPhase "Backward" "Ramp" 5 1 "s" None (Some false));
            Cycle (mkCycle 1 1 1 None)]
           [mkPhase "Forward" "Fixed" 10 2 "s" None None;
            mkPhase "Forward" "Fixed" 10 2 "s" None None]).
  - vm_compute. reflexivity.
  - repeat (apply Forall_cons_2; [left; reflexivity|]). apply Forall_nil_2.
Defined.

(** X23.  Where the flattener stops on a Cycle whose start phase lies past the
    end of the program and logs an error, the engine takes the jump: the
    loop condition fails and the run ends as a finished sequence.  It has
    executed exactly the Phases the flattener returned, and sends [KH]. *)
Theorem engine_ends_at_target_past_end
    (sequence_data : list instr) (flat : list phase) (lg : list log_entry)
    (k : nat) (c : cycle) :
  _flatten_sequence_for_plot sequence_data false false
  = Some (Returned flat, lg) →
  last (flatten_trace sequence_data false false) = Some (k, CycleInvalid) →
  sequence_data !! k = Some (Cycle c) →
  Forall (λ p, mode p = "Fixed"
               ∨ (mode p = "Ramp" ∧ ¬ (default 1%Q (update_interval p) == 0)%Q))
         flat →
  Z.of_nat (length sequence_data) ≤ start_phase c - 1 →
  ∃ fuel0, ∀ fuel, (fuel0 ≤ fuel)%nat →
    ∃ s, _sequence_worker sequence_data fuel = Some (s, SeqFinished) ∧
         executed s = flat ∧
         last (e_sent s) = Some "KH".
Proof.
  intros Hflat Hlast Hk Hrun Htarget.
  unfold flatten_trace in Hlast. unfold _flatten_sequence_for_plot in Hflat.
  destruct (flatten_run _ _ _) as [[tr s']|] eqn:Hr; [|done].
  apply last_Some in Hlast as [tr0 ->].
  destruct (flatten_invalid_walk _ _ _ _ _ _ Hr)
    as (u & c' & Hw & Hpc & Hk' & Hen & Hit & Hfl & Hpos & _).
  subst k. rewrite Hk in Hk'. injection Hk' as <-.
  cbn [mbind option_bind] in Hflat.
  rewrite (proj2 (Z.leb_gt _ _)) in Hflat by done. simplify_eq.
  rewrite Hfl in Hrun |- *.
  destruct (worker_reaches sequence_data tr0 u Hw Hrun) as [n0 Hn0].
  exists (n0 `max` S (S (length tr0)))%nat. intros fuel Hfuel.
  destruct (Hn0 fuel) as (e' & j & Hj & He' & Hloop); [lia|].
  unfold _sequence_worker.
  pose proof (Hloop (S (S (fuel - S (S j))))) as Hl.
  replace (j + S (S (fuel - S (S j))))%nat with fuel in Hl by lia.
  rewrite Hl, (worker_loop_cycle _ _ _ _ u c He' Hk Hen). cbv zeta.
  rewrite (proj2 (Z.ltb_lt _ _)) by done.
  cbn [worker_loop e_pc]. rewrite (proj2 (Z.ltb_ge _ _)) by lia.
  cbn [mbind option_bind].
  destruct He' as (_ & _ & Hex & _).
  eexists. split; [done|]. cbn [executed e_sent].
  split; [done|]. by rewrite last_snoc.
Qed.

Lemma engine_ends_at_target_past_end_witness :
  ∃ fuel0, ∀ fuel, (fuel0 ≤ fuel)%nat →
    ∃ s, _sequence_worker
           [Phase (mkPhase "Forward" "Fixed" 10 2 "s" None None);
            Cycle (mkCycle 5 1 3 None);
            Phase (mkPhase "Backward" "Fixed" 20 1 "s" None None)] fuel
         = Some (s, SeqFinished) ∧
         executed s = [mkPhase "Forward" "Fixed" 10 2 "s" None None] ∧
         last (e_sent s) = Some "KH".
Proof.
  apply (engine_ends_at_target_past_end
           [Phase (mkPhase "Forward" "Fixed" 10 2 "s" None None);
            Cycle (mkCycle 5 1 3 None);
            Phase (mkPhase "Backward" "Fixed" 20 1 "s" None None)]
           [mkPhase "Forward" "Fixed" 10 2 "s" None None]
           [invalid_start_msg (mkCycle 5 1 3 None)]
           1%nat (mkCycle 5 1 3 None)).
  - vm_compute. reflexivity.
  - vm_compute. reflexivity.
  - reflexivity.
  - repeat (apply Forall_cons_2; [left; reflexivity|]). apply Forall_nil_2.
  - simpl. lia.
Defined.

(** X24.  Where the flattener stops on a Cycle whose start phase lies so far
    before the program that [start_phase - 1] is below [-len], the engine
    takes the jump and its next look at [self.sequence_data[pc]] raises an
    [IndexError]: the thread ends after the Phases the flattener returned,
    and does not reach the lines that send [KH]. *)
Theorem engine_dies_at_target_before_start
    (sequence_data : list instr) (flat : list phase) (lg : list log_entry)
    (k : nat) (c : cycle) :
  _flatten_sequence_for_plot sequence_data false false
  = Some (Returned flat, lg) →
  last (flatten_trace sequence_data false false) = Some (k, CycleInvalid) →
  sequence_data !! k = Some (Cycle c) →
  Forall (λ p, mode p = "Fixed"
               ∨ (mode p = "Ramp" ∧ ¬ (default 1%Q (update_interval p) == 0)%Q))
         flat →
  start_phase c - 1 < - Z.of_nat (length sequence_data) →
  ∃ fuel0, ∀ fuel, (fuel0 ≤ fuel)%nat →
    ∃ s, _sequence_worker sequence_data fuel = Some (s, SeqIndexError) ∧
         executed s = flat ∧
         e_pc s = start_phase c - 1.
Proof.
  intros Hflat Hlast Hk Hrun Htarget.
  unfold flatten_trace in Hlast. unfold _flatten_sequence_for_plot in Hflat.
  destruct (flatten_run _ _ _) as [[tr s']|] eqn:Hr; [|done].
  apply last_Some in Hlast as [tr0 ->].
  destruct (flatten_invalid_walk _ _ _ _ _ _ Hr)
    as (u & c' & Hw & Hpc & Hk' & Hen & Hit & Hfl & Hpos & _).
  subst k. rewrite Hk in Hk'. injection Hk' as <-.
  cbn [mbind option_bind] in Hflat.
  rewrite (proj2 (Z.leb_gt _ _)) in Hflat by done. simplify_eq.
  rewrite Hfl in Hrun |- *.
  destruct (worker_reaches sequence_data tr0 u Hw Hrun) as [n0 Hn0].
  exists (n0 `max` S (S (length tr0)))%nat. intros fuel Hfuel.
  destruct (Hn0 fuel) as (e' & j & Hj & He' & Hloop); [lia|].
  unfold _sequence_worker.
  pose proof (Hloop (S (S (fuel - S (S j))))) as Hl.
  replace (j + S (S (fuel - S (S j))))%nat with fuel in Hl by lia.
  rewrite Hl, (worker_loop_cycle _ _ _ _ u c He' Hk Hen). cbv zeta.
  rewrite (proj2 (Z.ltb_lt _ _)) by done.
  cbn [worker_loop e_pc]. rewrite (proj2 (Z.ltb_lt _ _)) by lia.
  destruct (Z.to_nat (Z.of_nat (length sequence_data) - (start_phase c - 1)))
    as [|n] eqn:Hn; [lia|].
  cbn [skip_disabled]. rewrite (proj2 (Z.ltb_lt _ _)) by lia.
  unfold py_index.
  rewrite (proj2 (Z.leb_gt 0 (start_phase c - 1))) by lia.
  rewrite (proj2 (Z.leb_gt 0 _)) by lia.
  cbn [mbind option_bind].
  destruct He' as (_ & _ & Hex & _).
  eexists. split; [done|]. cbn [executed e_pc]. by split.
Qed.

Lemma engine_dies_at_target_before_start_witness :
  ∃ fuel0, ∀ fuel, (fuel0 ≤ fuel)%nat →
    ∃ s, _sequence_worker
           [Phase (mkPhase "Forward" "Fixed" 10 2 "s" None None);
            Cycle (mkCycle (-2) 1 3 None)] fuel
         = Some (s, SeqIndexError) ∧
         executed s = [mkPhase "Forward" "Fixed" 10 2 "s" None None] ∧
         e_pc s = -2 - 1.
Proof.
  apply (engine_dies_at_target_before_start
           [Phase (mkPhase "Forward" "Fixed" 10 2 "s" None None);
            Cycle (mkCycle (-2) 1 3 None)]
           [mkPhase "Forward" "Fixed" 10 2 "s" None None]
           [invalid_start_msg (mkCycle (-2) 1 3 None)]
           1%nat (mkCycle (-2) 1 3 None)).
  - vm_compute. reflexivity.
  - vm_compute. reflexivity.
  - reflexivity.
  - repeat (apply Forall_cons_2; [left; reflexivity|]). apply Forall_nil_2.
  - simpl. lia.
Defined.

(** One turn of the engine on an enabled Phase of positive duration whose
    first tick raises: mode Ramp with update interval zero, or a mode that
    is neither Fixed nor Ramp. *)
Lemma worker_loop_phase_crash (sequence_data : list instr) (ticks_fuel n : nat)
    (e : engine_state) (s : loop_state) (p : phase) :
  engine_matches e s →
  sequence_data !! pc s = Some (Phase p) → get_enabled (Phase p) = true →
  mode p ≠ "Fixed" →
  (mode p = "Ramp" → (default 1%Q (update_interval p) == 0)%Q) →
  (0 < duration_s p)%Q →
  worker_loop sequence_data (S ticks_fuel) (S n) e
  = Some (mkEngine (Z.of_nat (pc s)) (e_counters e) (current_rpm e)
                   (cumulative_time e)
                   (e_sent e ++ [if String.eqb (direction p) "Forward"
                                 then "K>" else "K<"])
                   (executed e ++ [p]),
          SeqCrashed (if String.eqb (mode p) "Ramp" then ZeroDivisionError
                      else UnboundLocalError "current_rpm_in_phase")).
Proof.
  intros (Hpc & _) Hi Hen Hfixed Hramp Hdur.
  pose proof (lookup_lt_Some _ _ _ Hi) as Hlt.
  cbn [worker_loop]. rewrite Hpc.
  rewrite (proj2 (Z.ltb_lt _ _)) by lia.
  rewrite (skip_disabled_enabled sequence_data (pc s) (Phase p)) by done.
  rewrite (proj2 (Z.leb_gt _ _)) by lia.
  rewrite py_index_nat, Hi.
  apply String.eqb_neq in Hfixed.
  assert (_execute_phase p (current_rpm e) (replicate (S ticks_fuel) EvRun)
          = mkRun [if String.eqb (direction p) "Forward" then "K>" else "K<"] []
                  (PhaseCrashed (if String.eqb (mode p) "Ramp"
                                 then ZeroDivisionError
                                 else UnboundLocalError "current_rpm_in_phase")))
    as ->.
  { unfold _execute_phase. cbn [replicate phase_loop].
    rewrite (proj2 (Qltb_lt _ _) Hdur).
    unfold tick_body. rewrite Hfixed.
    destruct (String.eqb (mode p) "Ramp") eqn:Hr; [|reflexivity].
    apply String.eqb_eq in Hr.
    by rewrite (proj2 (Qeq_bool_iff _ _) (Hramp Hr)). }
  reflexivity.
Qed.

(** X25.  A planned Phase of positive duration with mode Ramp and update
    interval zero, or with a mode that is neither Fixed nor Ramp, ends the
    engine's thread: the Phases planned before it are executed, then the
    direction command of this Phase is the last command sent, its first
    tick raises, and neither a speed command for it nor [KH] follows. *)
Theorem engine_dies_at_unrunnable_phase
    (sequence_data : list instr) (pre post : list phase) (p : phase)
    (lg : list log_entry) :
  _flatten_sequence_for_plot sequence_data false false
  = Some (Returned (pre ++ p :: post), lg) →
  Forall (λ q, mode q = "Fixed"
               ∨ (mode q = "Ramp" ∧ ¬ (default 1%Q (update_interval q) == 0)%Q))
         pre →
  mode p ≠ "Fixed" →
  (mode p = "Ramp" → (default 1%Q (update_interval p) == 0)%Q) →
  (0 < duration_s p)%Q →
  ∃ fuel0, ∀ fuel, (fuel0 ≤ fuel)%nat →
    ∃ s, _sequence_worker sequence_data fuel
         = Some (s, SeqCrashed (if String.eqb (mode p) "Ramp"
                                then ZeroDivisionError
                                else UnboundLocalError "current_rpm_in_phase")) ∧
         executed s = pre ++ [p] ∧
         last (e_sent s)
         = Some (if String.eqb (direction p) "Forward" then "K>" else "K<").
Proof.
  intros Hflat Hrun Hfixed Hramp Hdur.
  destruct (flatten_returned_walk _ _ _ _ _ Hflat) as (tr & u & Hw & Hfl & _).
  destruct (walk_reaches_append _ _ _ _ _ _ _ Hw Hfl)
    as (tr1 & v & Hw1 & Hpre & Hi & Hen); [simpl; lia|].
  rewrite <- Hpre in Hrun.
  destruct (worker_reaches sequence_data tr1 v Hw1 Hrun) as [n0 Hn0].
  exists (n0 `max` S (length tr1))%nat. intros fuel Hfuel.
  destruct (Hn0 fuel) as (e' & j & Hj & He' & Hloop); [lia|].
  unfold _sequence_worker.
  pose proof (Hloop (S (fuel - S j))) as Hl.
  replace (j + S (fuel - S j))%nat with fuel in Hl by lia.
  rewrite Hl. destruct fuel as [|fuel]; [lia|].
  rewrite (worker_loop_phase_crash _ _ _ _ v p He' Hi Hen Hfixed Hramp Hdur).
  cbn [mbind option_bind].
  destruct He' as (_ & _ & Hex & _).
  eexists. split; [done|]. cbn [executed e_sent].
  split; [by rewrite Hex, Hpre|]. by rewrite last_snoc.
Qed.

Lemma engine_dies_at_unrunnable_phase_witness :
  ∃ fuel0, ∀ fuel, (fuel0 ≤ fuel)%nat →
    ∃ s, _sequence_worker
           [Phase (mkPhase "Forward" "Fixed" 10 2 "s" None None);
            Phase (mkPhase "Backward" "Ramp" 20 5 "s" (Some 0%Q) None);
            Phase (mkPhase "Forward" "Fixed" 5 1 "s" None None)] fuel
         = Some (s, SeqCrashed
                      (if String.eqb
                            (mode (mkPhase "Backward" "Ramp" 20 5 "s" (Some 0%Q) None))
                            "Ramp"
                       then ZeroDivisionError
                       else UnboundLocalError "current_rpm_in_phase")) ∧
         executed s = [mkPhase "Forward" "Fixed" 10 2 "s" None None]
                      ++ [mkPhase "Backward" "Ramp" 20 5 "s" (Some 0%Q) None] ∧
         last (e_sent s)
         = Some (if String.eqb
                      (direction (mkPhase "Backward" "Ramp" 20 5 "s" (Some 0%Q) None))
                      "Forward"
                 then "K>" else "K<").
Proof.
  apply (engine_dies_at_unrunnable_phase
           [Phase (mkPhase "Forward" "Fixed" 10 2 "s" None None);
            Phase (mkPhase "Backward" "Ramp" 20 5 "s" (Some 0%Q) None);
            Phase (mkPhase "Forward" "Fixed" 5 1 "s" None None)]
           [mkPhase "Forward" "Fixed" 10 2 "s" None None]
           [mkPhase "Forward" "Fixed" 5 1 "s" None None]
           (mkPhase "Backward" "Ramp" 20 5 "s" (Some 0%Q) None) []).
  - vm_compute. reflexivity.
  - repeat (apply Forall_cons_2; [left; reflexivity|]). apply Forall_nil_2.
  - simpl. discriminate.
  - intros _. simpl. reflexivity.
  - reflexivity.
Defined.

(** * From the engine to the wire *)

Lemma encode_ascii_is_Some (s : string) :
  is_Some (encode_ascii s) ↔
  Forall (λ c, Z.of_N (N_of_ascii c) < 128) (list_ascii_of_string s).
Proof.
  unfold encode_ascii. rewrite mapM_is_Some.
  apply Forall_iff. intros c. unfold compose. cbv beta zeta.
  destruct (Z.of_N (N_of_ascii c) <? 128) eqn:H.
  - apply Z.ltb_lt in H. split; [done|]. intros _. by eexists.
  - apply Z.ltb_ge in H. split; [by intros [? ?]|lia].
Qed.

Lemma list_ascii_of_string_app (a b : string) :
  list_ascii_of_string (a +:+ b)
  = list_ascii_of_string a ++ list_ascii_of_string b.
Proof. induction a as [|c a IH]; [done|]. simpl. by rewrite IH. Qed.

Lemma encode_ascii_app (a b : string) :
  is_Some (encode_ascii a) → is_Some (encode_ascii b) →
  is_Some (encode_ascii (a +:+ b)).
Proof.
  rewrite !encode_ascii_is_Some, list_ascii_of_string_app.
  intros. by apply Forall_app.
Qed.

Lemma encode_ascii_zeros (n : nat) : is_Some (encode_ascii (zeros n)).
Proof.
  apply encode_ascii_is_Some.
  induction n as [|n IH]; [apply Forall_nil_2|]. by apply Forall_cons_2.
Qed.

Lemma encode_ascii_uint (d : Decimal.uint) :
  is_Some (encode_ascii (NilEmpty.string_of_uint d)).
Proof.
  apply encode_ascii_is_Some.
  induction d; simpl; [apply Forall_nil_2|by apply Forall_cons_2..].
Qed.

Lemma encode_ascii_py_str (n : Z) : is_Some (encode_ascii (py_str n)).
Proof.
  unfold py_str, NilZero.string_of_int.
  destruct (Z.to_int n) as [d|d]; unfold NilZero.string_of_uint.
  - destruct d; first [by eexists | apply encode_ascii_uint].
  - change (String "-" ?s) with ("-" +:+ s).
    apply (encode_ascii_app "-"); [by eexists|].
    destruct d; first [by eexists | apply encode_ascii_uint].
Qed.

Lemma encode_ascii_speed_command (r : Q) : is_Some (encode_ascii (speed_command r)).
Proof.
  unfold speed_command, format_03, zero_pad.
  apply (encode_ascii_app "R"); [by eexists|].
  destruct (_ <? 0).
  - apply (encode_ascii_app "-"); [by eexists|].
    apply encode_ascii_app; [apply encode_ascii_zeros|apply encode_ascii_py_str].
  - apply encode_ascii_app; [apply encode_ascii_zeros|apply encode_ascii_py_str].
Qed.

Lemma phase_loop_sent_encodable p start_rpm env e0 :
  Forall (λ t, is_Some (encode_ascii t)) (sent (phase_loop p start_rpm env e0)).
Proof.
  revert e0. induction env as [|ev env IH]; intros e0.
  { cbn [phase_loop]. destruct (Qltb e0 (duration_s p)); cbn [sent].
    - apply Forall_nil_2.
    - apply Forall_cons_2; [apply encode_ascii_speed_command|apply Forall_nil_2]. }
  assert (Forall (λ t, is_Some (encode_ascii t)) [speed_command (rpm p)]) as Hfinal
    by (apply Forall_cons_2; [apply encode_ascii_speed_command|apply Forall_nil_2]).
  assert (∀ e cur cmd, tick_body p start_rpm e = Returned (cur, cmd) →
                       Forall (λ t, is_Some (encode_ascii t)) (option_list cmd))
    as Htick.
  { intros e cur cmd. unfold tick_body. intros H.
    repeat case_match; simplify_eq; cbn [option_list];
      first [apply Forall_nil_2
            |apply Forall_cons_2; [apply encode_ascii_speed_command|apply Forall_nil_2]]. }
  cbn [phase_loop].
  destruct (Qltb e0 (duration_s p)); [|destruct ev; cbn [sent]; done || apply Forall_nil_2].
  destruct ev; cbn [sent]; try apply Forall_nil_2; try apply IH.
  - destruct (tick_body p start_rpm (e0 + PROGRESS_INTERVAL)%Q) as [[cur cmd]|] eqn:Ht;
      cbn [sent]; [|apply Forall_nil_2].
    apply Forall_app. split; [by eapply Htick|apply IH].
  - destruct (tick_body p start_rpm (e0 + PROGRESS_INTERVAL)%Q) as [[cur cmd]|] eqn:Ht;
      cbn [sent]; [|apply Forall_nil_2].
    apply Forall_app. split; [by eapply Htick|apply Forall_nil_2].
Qed.

(** X26.  The commands of a phase reach the pump: whatever the phase, the start
    RPM and the course of the two events, every command that
    [_execute_phase] hands to [_send_pump_command] is ASCII text, so a
    connected controller whose writes succeed frames each of them between a
    line feed and a carriage return, in order, puts nothing on the result
    queue and goes on polling. *)
Theorem phase_commands_reach_pump
    (p : phase) (start_rpm : Q) (env : list env_event)
    (c : controller) (w : list Z) :
  ctl_ser c = Some (mkPort true w) →
  ∃ payloads,
    Forall2 (λ t bs, encode_ascii t = Some bs)
            (sent (_execute_phase p start_rpm env)) payloads ∧
    run (map (λ t, CmdSend t true) (sent (_execute_phase p start_rpm env))) c
    = (mkController (Some (mkPort true (w ++ concat (map frame payloads))))
                    (ctl_results c)
                    (ctl_wire c ++ concat (map frame payloads)),
       WorkerPolling).
Proof.
  intros Hser.
  assert (Forall (λ t, is_Some (encode_ascii t))
                 (sent (_execute_phase p start_rpm env))) as Hall.
  { cbn [_execute_phase sent]. apply Forall_cons_2; [by case_match; eexists|].
    apply Forall_app. split; [|apply phase_loop_sent_encodable].
    case_match; [|apply Forall_nil_2].
    apply Forall_cons_2; [apply encode_ascii_speed_command|apply Forall_nil_2]. }
  assert (∃ payloads, Forall2 (λ t bs, encode_ascii t = Some bs)
                              (sent (_execute_phase p start_rpm env)) payloads)
    as [payloads Hp].
  { induction Hall as [|t ts [bs Ht] _ [l IH]]; [by exists []|].
    exists (bs :: l). by apply Forall2_cons_2. }
  exists payloads. split; [done|].
  pose proof (run_sends _ _ w c [] Hser Hp) as Hrun.
  by rewrite app_nil_r in Hrun.
Qed.

Lemma phase_commands_reach_pump_witness :
  ∃ payloads,
    Forall2 (λ t bs, encode_ascii t = Some bs)
            (sent (_execute_phase (mkPhase "Forward" "Fixed" 10 1 "s" None None)
                                  0%Q (replicate 10 EvRun))) payloads ∧
    run (map (λ t, CmdSend t true)
             (sent (_execute_phase (mkPhase "Forward" "Fixed" 10 1 "s" None None)
                                   0%Q (replicate 10 EvRun))))
        (mkController (Some (mkPort true [255; 158])) [] [255; 158])
    = (mkController (Some (mkPort true ([255; 158] ++ concat (map frame payloads))))
                    (ctl_results (mkController (Some (mkPort true [255; 158])) []
                                               [255; 158]))
                    (ctl_wire (mkController (Some (mkPort true [255; 158])) []
                                            [255; 158])
                       ++ concat (map frame payloads)),
       WorkerPolling).
Proof.
  apply (phase_commands_reach_pump
           (mkPhase "Forward" "Fixed" 10 1 "s" None None) 0%Q (replicate 10 EvRun)
           (mkController (Some (mkPort true [255; 158])) [] [255; 158])
           [255; 158]).
  reflexivity.
Defined.
